(** * American option pricing: Longstaff-Schwartz and the MDP adapter

    A shallow embedding of [src/examples/american_pricing/american_pricing.py]
    (class [AmericanPricing]) and the proofs of its specification.

    Conventions of the embedding.
    - Python floats: the program only combines floats with [+], [-], [*], [/],
      unary minus, [>], [np.exp] and [np.sqrt].  These form the interface
      [FloatOps]; every definition is written against it, so the structural
      theorems hold for any implementation of float arithmetic, rounding
      included ([+!], [-!], [*!], [/!] and [>!] are its operations).  The
      instance [R_ops] reads floats as real numbers; claims about the order
      of values are settled there.  The instance [binary64_ops] is IEEE
      binary64 on the kernel's floats; it decides where overflow matters.
    - Python ints ([num_dt], [num_paths]) are [Z]; loop indices, which only
      exist once the sizes passed numpy's checks, are [nat].
    - [np.random.normal] reads and advances the process-wide generator: a
      state monad over an abstract generator state [RNG].
    - Exceptions raised by the code itself are values of [exn].
    - numpy arrays that never leave [get_ls_price] are lists passed along;
      the price history of an MDP state is shared with the caller, so it is
      a reference into a store of arrays.
    - [get_future_price_mean_var] (module [num_utils]) and numpy's routines
      are not part of the source file: they are fields of [Library]. *)

From Stdlib Require Import Reals Lra ZArith ClassicalEpsilon.
From Stdlib Require Floats.
From stdpp Require Import base list gmap.

(** ** Float arithmetic *)

Class FloatOps (F : Type) := {
  of_int : Z -> F;          (* an int used where a float is expected *)
  fadd : F -> F -> F;
  fsub : F -> F -> F;
  fmul : F -> F -> F;
  fdiv : F -> F -> F;
  fneg : F -> F;
  fgt : F -> F -> bool;     (* [a > b] *)
  fexp : F -> F;            (* [np.exp] *)
  fsqrt : F -> F;           (* [np.sqrt] *)
}.

Declare Scope fl_scope.
Delimit Scope fl_scope with fl.
Infix "+!" := fadd (at level 50, left associativity) : fl_scope.
Infix "-!" := fsub (at level 50, left associativity) : fl_scope.
Infix "*!" := fmul (at level 40, left associativity) : fl_scope.
Infix "/!" := fdiv (at level 40, left associativity) : fl_scope.
Infix ">!" := fgt (at level 70, no associativity) : fl_scope.
Open Scope fl_scope.

(** The literal [0.] *)
Definition fzero {F} `{!FloatOps F} : F := of_int 0.

(** Python's builtin [max(a, b)]: the first argument is kept unless the
    second is strictly greater. *)
Definition py_max {F} `{!FloatOps F} (a b : F) : F :=
  if b >! a then b else a.

(** ** Exceptions and the generator monad *)

Inductive exn := ZeroDivisionError | ValueError | IndexError.

Inductive result (A : Type) :=
  | Ok (a : A)
  | Raise (e : exn).
Arguments Ok {A} a.
Arguments Raise {A} e.

Definition M (S A : Type) : Type := S -> A * S.

Definition ret {S A} (a : A) : M S A := fun s => (a, s).

Definition bind {S A B} (c : M S A) (k : A -> M S B) : M S B :=
  fun s => let '(a, s') := c s in k a s'.

Notation "x <- c ;; k" := (bind c (fun x => k))
  (at level 20, c at level 99, k at level 200, only parsing).
Notation "' p <- c ;; k" := (bind c (fun x => match x with p => k end))
  (at level 20, p pattern, c at level 99, k at level 200, only parsing).

(** [for x in xs: s = body(x, s)] *)
Fixpoint for_loop {S A St} (xs : list A) (body : A -> St -> M S St) (s : St)
  : M S St :=
  match xs with
  | [] => ret s
  | x :: xs' => s' <- body x s ;; for_loop xs' body s'
  end.

(** [range(n)] and [range(n - 1, 0, -1)] *)
Definition range (n : nat) : list nat := seq 0 n.
Definition range_down (n : nat) : list nat := rev (seq 1 (n - 1)).

(** ** The objects of the program *)

(** [class AmericanPricing]: the fields set by [__init__]. *)
Record AmericanPricing (F : Type) := {
  spot_price : F;
  payoff : F -> list F -> F;
  expiry : F;
  dispersion : F -> F -> F;
  ir : F -> F;
}.
Arguments spot_price {F} _.
Arguments payoff {F} _ _ _.
Arguments expiry {F} _.
Arguments dispersion {F} _ _ _.
Arguments ir {F} _ _.

(** What the source imports and calls.  The routines are total functions
    here: an exception raised inside one of them (a least-squares fit that
    does not converge) is outside the model, and so is one raised by a
    function the caller supplies. *)
Record Library (F RNG : Type) := {
  (* [np.random.normal(loc, scale)] on the global generator *)
  normal : F -> F -> M RNG F;
  (* [num_utils.get_future_price_mean_var(price, t, dt, ir, dispersion)] *)
  get_future_price_mean_var :
    F -> F -> F -> (F -> F) -> (F -> F -> F) -> F * F;
  (* [np.average] of a vector *)
  np_average : list F -> F;
  (* [np.linalg.lstsq(x, y, rcond=None)[0]] *)
  np_lstsq : list (list F) -> list F -> list F;
  (* one entry of [x.dot(b)]: a row of [x] against [b] *)
  np_vdot : list F -> list F -> F;
  (* whatever [np.empty] finds in the memory it returns *)
  np_empty_fill : F;
}.
Arguments normal {F RNG} _ _ _.
Arguments get_future_price_mean_var {F RNG} _ _ _ _ _ _.
Arguments np_average {F RNG} _ _.
Arguments np_lstsq {F RNG} _ _ _.
Arguments np_vdot {F RNG} _ _ _.
Arguments np_empty_fill {F RNG} _.

(** References to arrays, and the store they point into. *)
Definition loc := positive.

Record World (F RNG : Type) := {
  rng : RNG;
  heap : gmap loc (list F);
}.
Arguments rng {F RNG} _.
Arguments heap {F RNG} _.
Arguments Build_World {F RNG} _ _.

(** [StateType = Tuple[float, np.ndarray]], [ActionType = bool] *)
Definition StateType (F : Type) : Type := F * loc.
Definition ActionType : Type := bool.

Section Program.
Context {F : Type} `{!FloatOps F} {RNG : Type}.
Variable lib : Library F RNG.

#[export] Instance F_inhabited : Inhabited F := populate fzero.

(** *** numpy arrays *)

(** [np.empty([rows, cols])] *)
Definition np_empty (rows cols : nat) : list (list F) :=
  replicate rows (replicate cols (np_empty_fill lib)).

(** [a[:, 0] = x] *)
Definition set_column0 (x : F) (a : list (list F)) : list (list F) :=
  (fun row => <[0%nat := x]> row) <$> a.

(** [a[i, j] = x] *)
Definition set_entry (i j : nat) (x : F) (a : list (list F))
  : list (list F) :=
  alter (fun row => <[j := x]> row) i a.

(** [x.dot(b)] for a matrix [x] and a vector [b] *)
Definition np_dot (x : list (list F)) (b : list F) : list F :=
  (fun row => np_vdot lib row b) <$> x.

(** A new array holding [xs] ([np.array(xs)]): a reference that the store
    does not know yet. *)
Definition np_array (xs : list F) (h : gmap loc (list F))
  : loc * gmap loc (list F) :=
  let l := fresh (dom h) in (l, <[l := xs]> h).

(** [np.append(arr, x)]: a new array, [arr] is only read. *)
Definition np_append (arr : loc) (x : F) (h : gmap loc (list F))
  : loc * gmap loc (list F) :=
  np_array ((h !!! arr) ++ [x]) h.

(** *** [AmericanPricing.get_ls_price] *)

Variable self : AmericanPricing F.

(** Lines 51-62: the paths, one row after the other. *)
Definition simulate_paths (num_dt num_paths : nat) (dt : F)
    (paths : list (list F)) : M RNG (list (list F)) :=
  for_loop (range num_paths) (fun i paths =>
    '(_, paths) <-
      for_loop (range num_dt) (fun t '(price, paths) =>
        let '(m, v) :=
          get_future_price_mean_var lib price (of_int (Z.of_nat t)) dt
            (ir self) (dispersion self) in
        price <- normal lib m (fsqrt v) ;;
        ret (price, set_entry i (t + 1) price paths))
      (spot_price self, paths) ;;
    ret paths) paths.

(** Lines 63-64: the cash flow at expiry. *)
Definition terminal_cashflow (num_paths : nat) (paths : list (list F))
  : list F :=
  (fun i => py_max (payoff self (expiry self) (paths !!! i)) fzero)
    <$> range num_paths.

(** Line 77: the one-step discount factor. *)
Definition disc (dt : F) (t : nat) : F :=
  fexp (ir self (of_int (Z.of_nat t))
        -! ir self (of_int (Z.of_nat t) +! dt)).

(** Lines 79-80: the immediate payoff of every path at step [t]. *)
Definition payoff_at (num_paths : nat) (paths : list (list F)) (t : nat)
  : list F :=
  (fun i => payoff self (of_int (Z.of_nat t)) (take (t + 1) (paths !!! i)))
    <$> range num_paths.

(** Line 81: the paths in the money. *)
Definition in_the_money (num_paths : nat) (payoff_ : list F) : list nat :=
  filter (fun i => (payoff_ !!! i >! fzero) = true) (range num_paths).

(** Lines 93-95: the exercise decision along [enumerate(indices)]. *)
Definition exercise (payoff_ estimate : list F) (indices : list nat)
    (cashflow : list F) : list F :=
  foldl (fun cashflow '(i, ind) =>
           if payoff_ !!! ind >! estimate !!! i
           then <[ind := payoff_ !!! ind]> cashflow
           else cashflow)
        cashflow (zip (seq 0 (length indices)) indices).

(** Lines 77-95: the body of the backward loop. *)
Definition ls_step (num_paths : nat) (dt : F) (paths : list (list F))
    (feature_funcs : list (F -> list F -> F)) (t : nat)
    (cashflow : list F) : list F :=
  let cashflow := (fun c => c *! disc dt t) <$> cashflow in
  let payoff_ := payoff_at num_paths paths t in
  let indices := in_the_money num_paths payoff_ in
  if decide (0 < length indices) then
    let x_vals :=
      (fun i => (fun f => f (of_int (Z.of_nat t))
                             (take (t + 1) (paths !!! i)))
                  <$> feature_funcs) <$> indices in
    let y_vals := (fun i => cashflow !!! i) <$> indices in
    let estimate := np_dot x_vals (np_lstsq lib x_vals y_vals) in
    exercise payoff_ estimate indices cashflow
  else cashflow.

(** Lines 63-95: the cash flow after the whole backward loop. *)
Definition backward_induction (num_dt num_paths : nat) (dt : F)
    (paths : list (list F)) (feature_funcs : list (F -> list F -> F))
  : list F :=
  foldl (fun cashflow t => ls_step num_paths dt paths feature_funcs t cashflow)
        (terminal_cashflow num_paths paths) (range_down num_dt).

(** Lines 97-100: the returned value. *)
Definition final_price (dt : F) (cashflow : list F) : F :=
  py_max (payoff self (of_int 0) [spot_price self])
         (np_average lib ((fun c => c *! fexp (fneg (ir self dt)))
                            <$> cashflow)).

(** Lines 49-62: the ensemble [get_ls_price] works on. *)
Definition path_ensemble (num_dt num_paths : Z) : M RNG (list (list F)) :=
  let dt := expiry self /! of_int num_dt in
  let paths := np_empty (Z.to_nat num_paths) (Z.to_nat (num_dt + 1)) in
  let paths := set_column0 (spot_price self) paths in
  simulate_paths (Z.to_nat num_dt) (Z.to_nat num_paths) dt paths.

(** The method.  Before the loops three operations can raise: the
    division of a float by the int 0, [np.empty] with a negative dimension
    and the index 0 into an axis of size 0.  An int beyond the range of a
    float ([OverflowError] at the division) and an array beyond what numpy
    can allocate are outside the model. *)
Definition get_ls_price (num_dt num_paths : Z)
    (feature_funcs : list (F -> list F -> F)) : M RNG (result F) :=
  if decide (num_dt = 0)%Z then ret (Raise ZeroDivisionError) else
  let dt := expiry self /! of_int num_dt in
  if decide (num_paths < 0 \/ num_dt + 1 < 0)%Z then ret (Raise ValueError)
  else
  if decide (num_dt + 1 = 0)%Z then ret (Raise IndexError) else
  paths <- path_ensemble num_dt num_paths ;;
  let cashflow :=
    backward_induction (Z.to_nat num_dt) (Z.to_nat num_paths) dt paths
      feature_funcs in
  ret (Ok (final_price dt cashflow)).

(** *** [AmericanPricing.state_reward_gen] *)

(** [price_arr[-1]] raises [IndexError] on an empty array.  (A reference
    always points to an array of the store; the total lookup reads one that
    does not as the empty array.) *)
Definition state_reward_gen (state : StateType F) (action : ActionType)
    (delta_t : F) : M (World F RNG) (result (StateType F * F)) :=
  fun w =>
  let '(t, price_arr) := state in
  let reward :=
    if action
    then fexp (fneg (ir self t)) *! payoff self t (heap w !!! price_arr)
    else fzero in
  match last (heap w !!! price_arr) with
  | None => (Raise IndexError, w)
  | Some x =>
    let '(m, v) :=
      get_future_price_mean_var lib x t delta_t (ir self)
        (dispersion self) in
    let '(next_price, g) := normal lib m (fsqrt v) (rng w) in
    let '(price1, h) := np_append price_arr next_price (heap w) in
    let next_t := (if action then expiry self else t) +! delta_t in
    (Ok ((next_t, price1), reward), Build_World g h)
  end.

(** *** The functions [get_tdl_obj] hands to the learner *)

Definition sa_func (_ : StateType F) : list ActionType := [true; false].

Definition terminal_state (s : StateType F) : bool :=
  s.1 >! expiry self.

(** [dt] is the default argument bound when the closure is built, to
    [self.expiry / num_dt]. *)
Definition sr_func (dt : F) (s : StateType F) (a : ActionType)
  : M (World F RNG) (result (StateType F * F)) :=
  state_reward_gen s a dt.

Definition init_s : M (World F RNG) (StateType F) :=
  fun w =>
  let '(l, h) := np_array [spot_price self] (heap w) in
  ((fzero, l), Build_World (rng w) h).

End Program.

(** ** Floats read as real numbers *)

(** The reals have no [inf], no nan and no rounding: a theorem over this
    instance is about runs in which no value overflows, and says so. *)

#[export] Instance R_ops : FloatOps R := {|
  of_int := IZR;
  fadd := Rplus;
  fsub := Rminus;
  fmul := Rmult;
  fdiv := Rdiv;
  fneg := Ropp;
  fgt a b := if Rlt_dec b a then true else false;
  fexp := exp;
  fsqrt := sqrt;
|}.

Definition Rsum (l : list R) : R := foldr Rplus 0%R l.

(** [np.average]: the sum over the number of entries.  (On the empty
    vector numpy answers nan; the real reading is meant for at least one
    path.) *)
Definition Raverage (l : list R) : R := (Rsum l / INR (length l))%R.

(** A row of a matrix against a vector. *)
Definition Rdot (row b : list R) : R := Rsum (zip_with Rmult row b).

(** [np.linalg.lstsq]: among the vectors with least squared residual, the
    one of least norm. *)
Definition residual (x : list (list R)) (y b : list R) : R :=
  Rsum (zip_with (fun row yi => Rsqr (Rdot row b - yi)) x y).

Definition least_squares (x : list (list R)) (y b : list R) : Prop :=
  length b = length (default [] (head x)) /\
  forall b', length b' = length b -> (residual x y b <= residual x y b')%R.

Definition min_norm_least_squares (x : list (list R)) (y b : list R)
  : Prop :=
  least_squares x y b /\
  forall b', least_squares x y b' ->
             (Rsum (Rsqr <$> b) <= Rsum (Rsqr <$> b'))%R.

Definition Rlstsq (x : list (list R)) (y : list R) : list R :=
  epsilon (inhabits []) (min_norm_least_squares x y).

(** The library over the reals: the generator, the moment estimator and the
    content of fresh memory stay free. *)
Definition R_library {RNG : Type} (sampler : R -> R -> M RNG R)
    (moments : R -> R -> R -> (R -> R) -> (R -> R -> R) -> R * R)
    (fill : R) : Library R RNG := {|
  normal := sampler;
  get_future_price_mean_var := moments;
  np_average := Raverage;
  np_lstsq := Rlstsq;
  np_vdot := Rdot;
  np_empty_fill := fill;
|}.

(** ** A concrete run: the option of the script *)

(** Modelled from the spec: [num_utils.get_future_price_mean_var] is not in
    the source tree.  The spec (4.1) gives the mean as the price moved by
    the drift that the rate curve implies over [t, t + dt], linearised, and
    the variance as [dispersion(t, price)^2 * dt]. *)
Definition moments_spec (price t dt : R) (ir : R -> R)
    (dispersion : R -> R -> R) : R * R :=
  ((price + price * (ir (t + dt) - ir t))%R,
   (dispersion t price * dispersion t price * dt)%R).

(** A generator whose state is the list of standard normal variates it
    will hand out; it returns the mean once they are used up. *)
Definition draw_normal (m s : R) : M (list R) R :=
  fun g =>
  match g with
  | [] => (m, [])
  | z :: g' => ((m + s * z)%R, g')
  end.

Definition demo_library : Library R (list R) :=
  R_library draw_normal moments_spec 0%R.

(** Lines 201-229 of the script: a call struck at 85 on a spot of 80, three
    years, flat rate 3%, lognormal dispersion 25%. *)
Definition script_option : AmericanPricing R := {|
  spot_price := 80%R;
  payoff := fun _ x => (default 0 (last x) - 85)%R;
  expiry := 3%R;
  dispersion := fun _ x => (25 / 100 * x)%R;
  ir := fun t => (3 / 100 * t)%R;
|}.

(** The same option with another expiry. *)
Definition with_expiry (e : R) (a : AmericanPricing R) : AmericanPricing R :=
  {| spot_price := spot_price a;
     payoff := payoff a;
     expiry := e;
     dispersion := dispersion a;
     ir := ir a |}.

(** The world in which [init_s] has run once. *)
Definition demo_world (g : list R) : World R (list R) :=
  (init_s script_option (Build_World g ∅)).2.

Definition demo_state (g : list R) : StateType R :=
  (init_s script_option (Build_World g ∅)).1.

(** One path over two time steps that ends in the money and is out of the
    money at step 1, and the first two Laguerre polynomials of the last
    price as the basis. *)
Definition demo_paths : list (list R) := [[80%R; 80%R; 90%R]].

Definition demo_features : list (R -> list R -> R) :=
  [fun _ _ => 1%R; fun _ x => (1 - default 0 (last x))%R].

(** ** Invariants *)

(** The shape of the ensemble and the content of its first column. *)
Definition ensemble {F : Type} (rows cols : nat) (x : F)
    (a : list (list F)) : Prop :=
  length a = rows /\
  Forall (fun row => length row = cols /\ row !! 0%nat = Some x) a.

(** ** The ensemble without arrays, episodes and the learner's MDP *)

Section Composition.
Context {F : Type} `{!FloatOps F} {RNG : Type}.
Variable lib : Library F RNG.
Variable self : AmericanPricing F.

(** The prices of one path after the spot: each is drawn from the moments
    of the one before, at the step indices [ts]. *)
Fixpoint drawn_prices (dt : F) (ts : list nat) (price : F)
  : M RNG (list F) :=
  match ts with
  | [] => ret []
  | t :: ts' =>
    let '(m, v) :=
      get_future_price_mean_var lib price (of_int (Z.of_nat t)) dt
        (ir self) (dispersion self) in
    price <- normal lib m (fsqrt v) ;;
    rest <- drawn_prices dt ts' price ;;
    ret (price :: rest)
  end.

(** [num_paths] such paths, drawn one after the other. *)
Fixpoint drawn_paths (num_dt : nat) (dt : F) (num_paths : nat)
  : M RNG (list (list F)) :=
  match num_paths with
  | 0 => ret []
  | S n =>
    row <- drawn_prices dt (range num_dt) (spot_price self) ;;
    rest <- drawn_paths num_dt dt n ;;
    ret ((spot_price self :: row) :: rest)
  end.

(** The library with another content of fresh memory. *)
Definition with_fill (x : F) : Library F RNG := {|
  normal := normal lib;
  get_future_price_mean_var := get_future_price_mean_var lib;
  np_average := np_average lib;
  np_lstsq := np_lstsq lib;
  np_vdot := np_vdot lib;
  np_empty_fill := x;
|}.

(** A state whose price history is an array of the store with at least one
    price. *)
Definition live_state (w : World F RNG) (s : StateType F) (h : list F)
  : Prop :=
  heap w !! s.2 = Some h /\ h <> [].

(** Successive transitions, one per action, as a learner makes them with the
    function it is given; the rewards are collected in order, a raise ends
    the run. *)
Fixpoint run_actions
    (step : StateType F -> ActionType ->
            M (World F RNG) (result (StateType F * F)))
    (actions : list ActionType) (s : StateType F)
  : M (World F RNG) (result (StateType F * list F)) :=
  match actions with
  | [] => ret (Ok (s, []))
  | a :: actions' =>
    fun w =>
    match step s a w with
    | (Raise e, w') => (Raise e, w')
    | (Ok (s', r), w') =>
      match run_actions step actions' s' w' with
      | (Raise e, w'') => (Raise e, w'')
      | (Ok (s'', rs), w'') => (Ok (s'', r :: rs), w'')
      end
    end
  end.

(** [init_sa]: the initial state, then [random.choice([True, False])]. *)
Definition init_sa (choice : list ActionType -> M (World F RNG) ActionType)
  : M (World F RNG) (StateType F * ActionType) :=
  s <- init_s self ;;
  a <- choice [true; false] ;;
  ret (s, a).

End Composition.

(** The arguments of [MDPRepForRLFA], which is taken to store them. *)
Record MDPRepForRLFA (F RNG : Type) := {
  state_action_func : StateType F -> list ActionType;
  gamma : F;
  terminal_state_func : StateType F -> bool;
  state_reward_gen_func :
    StateType F -> ActionType -> M (World F RNG) (result (StateType F * F));
  init_state_gen : M (World F RNG) (StateType F);
  init_state_action_gen : M (World F RNG) (StateType F * ActionType);
}.
Arguments state_action_func {F RNG} _ _.
Arguments gamma {F RNG} _.
Arguments terminal_state_func {F RNG} _ _.
Arguments state_reward_gen_func {F RNG} _ _ _.
Arguments init_state_gen {F RNG} _.
Arguments init_state_action_gen {F RNG} _.

(** Lines 135-167 and 177 of [get_tdl_obj]: the MDP and the bound
    [max_steps] that are handed to [TDLambda].  The division raises for
    [num_dt = 0].  The learner, its network and the arguments that are
    passed on to it as they come are not part of the source file. *)
Definition get_tdl_obj {F : Type} `{!FloatOps F} {RNG : Type}
    (lib : Library F RNG) (self : AmericanPricing F)
    (choice : list ActionType -> M (World F RNG) ActionType) (num_dt : Z)
  : result (MDPRepForRLFA F RNG * Z) :=
  if decide (num_dt = 0)%Z then Raise ZeroDivisionError else
  let dt := expiry self /! of_int num_dt in
  Ok ({| state_action_func := sa_func;
         gamma := of_int 1;
         terminal_state_func := terminal_state self;
         state_reward_gen_func := sr_func lib self dt;
         init_state_gen := init_s self;
         init_state_action_gen := init_sa self choice |},
      (num_dt + 1)%Z).

(** The script's option with another payoff. *)
Definition with_payoff (p : R -> list R -> R) (a : AmericanPricing R)
  : AmericanPricing R :=
  {| spot_price := spot_price a;
     payoff := p;
     expiry := expiry a;
     dispersion := dispersion a;
     ir := ir a |}.

(** A call spread: the script's call, capped at 10. *)
Definition capped_option : AmericanPricing R :=
  with_payoff (fun _ x => Rmin (default 0 (last x) - 85) 10)%R script_option.

(** An option that pays nothing: the negative part of the call. *)
Definition worthless_option : AmericanPricing R :=
  with_payoff (fun _ x => Rmin (default 0 (last x) - 85) 0)%R script_option.

(** A chooser that always exercises. *)
Definition demo_choice (_ : list ActionType)
  : M (World R (list R)) ActionType :=
  ret true.

(** One path over two time steps that is in the money at step 1. *)
Definition itm_paths : list (list R) := [[80%R; 90%R; 90%R]].

(** The script's call with exercise at the expiry only: before time 3 the
    payoff is -1. *)
Definition european_option : AmericanPricing R :=
  with_payoff
    (fun t x => if Rlt_dec t 3 then (-1)%R else (default 0 (last x) - 85)%R)
    script_option.

(** ** Floats as binary64 *)

(** An int where a float is expected: the nearest binary64 number, ties to
    even.  (Python raises [OverflowError] beyond the range of binary64; the
    conversion is used within it.) *)
Definition b64_of_int (z : Z) : PrimFloat.float :=
  Floats.FloatOps.SF2Prim
    (SpecFloat.binary_normalize Floats.FloatOps.prec Floats.FloatOps.emax
       z 0 false).

(** The real number a finite binary64 number stands for. *)
Definition b64_to_R (x : PrimFloat.float) : R :=
  match Floats.FloatOps.Prim2SF x with
  | SpecFloat.S754_finite s m e =>
    ((if s then -1 else 1) * IZR (Zpos m) * powerRZ 2 e)%R
  | _ => 0%R
  end.

(** [y] is a finite binary64 number nearest to the real [r]. *)
Definition b64_nearest (r : R) (y : PrimFloat.float) : Prop :=
  PrimFloat.is_finite y = true /\
  forall z, PrimFloat.is_finite z = true ->
            (Rabs (b64_to_R y - r) <= Rabs (b64_to_R z - r))%R.

(** The largest binary64 number whose exponential is finite,
    [0x1.62e42fefa39efp+9 = 709.782712893384]. *)
Definition b64_exp_overflow : PrimFloat.float :=
  Floats.FloatOps.SF2Prim (SpecFloat.S754_finite false 0x162e42fefa39ef (-43)).

(** [np.exp] on binary64: nan for nan, [inf] above the overflow threshold,
    0 below -746, where the exponential is less than half the least
    positive number, and a nearest number in between. *)
Definition b64_exp (x : PrimFloat.float) : PrimFloat.float :=
  if PrimFloat.is_nan x then PrimFloat.nan
  else if PrimFloat.ltb b64_exp_overflow x then PrimFloat.infinity
  else if PrimFloat.ltb x (b64_of_int (-746)) then PrimFloat.zero
  else epsilon (inhabits PrimFloat.zero) (b64_nearest (exp (b64_to_R x))).

#[export] Instance binary64_ops : FloatOps PrimFloat.float := {|
  of_int := b64_of_int;
  fadd := PrimFloat.add;
  fsub := PrimFloat.sub;
  fmul := PrimFloat.mul;
  fdiv := PrimFloat.div;
  fneg := PrimFloat.opp;
  fgt a b := PrimFloat.ltb b a;
  fexp := b64_exp;
  fsqrt := PrimFloat.sqrt;
|}.





(** Two paths over two time steps: at step 1 the first is in the money and
    the second is not. *)
Definition mixed_paths : list (list R) :=
  [[80%R; 90%R; 90%R]; [80%R; 80%R; 90%R]].

(** * Proofs *)

(** ** The generator monad and the loops *)

Lemma bind_run {S A B} (c : M S A) (k : A -> M S B) (s : S) :
  bind c k s = k (c s).1 (c s).2.
Proof. unfold bind. by destruct (c s). Qed.

(** A property of the loop state that every iteration keeps holds when the
    loop ends. *)
Lemma for_loop_inv {S A St} (P : St -> Prop) (body : A -> St -> M S St)
    (xs : list A) :
  (forall x s g, x ∈ xs -> P s -> P (body x s g).1) ->
  forall s g, P s -> P (for_loop xs body s g).1.
Proof.
  induction xs as [|x xs IH]; intros Hbody s g Hs; simpl; [done|].
  rewrite bind_run. apply IH.
  - intros y s' g' Hy. apply Hbody. by right.
  - apply Hbody; [by left|done].
Qed.

(** ** The real instance *)

Lemma R_fgt_true (a b : R) : (a >! b) = true <-> (a > b)%R.
Proof. simpl. destruct (Rlt_dec b a); split; intros; try done; lra. Qed.

Lemma R_fgt_false (a b : R) : (a >! b) = false <-> (a <= b)%R.
Proof. simpl. destruct (Rlt_dec b a); split; intros; try done; lra. Qed.

Lemma R_py_max (a b : R) : py_max a b = Rmax a b.
Proof.
  unfold py_max, Rmax. simpl.
  destruct (Rlt_dec a b), (Rle_dec a b); try done; lra.
Qed.



(** The loops and the arrays on small inputs. *)

Example range_3 : range 3 = [0; 1; 2].
Proof. reflexivity. Qed.

Example range_down_4 : range_down 4 = [3; 2; 1].
Proof. reflexivity. Qed.

Example range_down_1 : range_down 1 = [].
Proof. reflexivity. Qed.

Example set_entry_1_2 :
  set_entry 1 2 7%R [[1; 2; 3]; [4; 5; 6]]%R = [[1; 2; 3]; [4; 5; 7]]%R.
Proof. reflexivity. Qed.

(** One path of one step of the script's option, the generator holding the
    variate 1: the row is the spot and then mean plus deviation. *)
Example path_ensemble_1_1 :
  path_ensemble demo_library script_option 1 1 [1%R] =
    ([[80%R;
       (80 + 80 * (3 / 100 * (0 + 3 / 1) - 3 / 100 * 0)
        + sqrt (25 / 100 * 80 * (25 / 100 * 80) * (3 / 1)) * 1)%R]], []).
Proof. reflexivity. Qed.

Section StateRewardGen.
Context {F : Type} `{!FloatOps F} {RNG : Type}.
Variable lib : Library F RNG.
Variable self : AmericanPricing F.

(** What one call does on a state whose history is [h], with last price
    [x]. *)
Lemma state_reward_gen_run (t : F) (a : loc) (action : ActionType) (dt : F)
    (w : World F RNG) (h : list F) (x : F) :
  heap w !! a = Some h ->
  last h = Some x ->
  let mv := get_future_price_mean_var lib x t dt (ir self) (dispersion self) in
  let d := normal lib mv.1 (fsqrt mv.2) (rng w) in
  let l := fresh (dom (heap w)) in
  state_reward_gen lib self (t, a) action dt w =
    (Ok (((if action then expiry self else t) +! dt, l),
         if action then fexp (fneg (ir self t)) *! payoff self t h
         else fzero),
     Build_World d.2 (<[l := h ++ [d.1]]> (heap w))).
Proof.
  intros Ha Hx. cbv zeta. unfold state_reward_gen, np_append, np_array.
  rewrite (lookup_total_correct _ _ _ Ha), Hx.
  destruct (get_future_price_mean_var _ _ _ _ _ _) as [m v]; simpl.
  by destruct (normal lib m (fsqrt v) (rng w)).
Qed.

Lemma last_is_Some {A} (h : list A) : h <> [] -> exists x, last h = Some x.
Proof.
  intros Hh. destruct (last h) as [x|] eqn:E; [by exists x|].
  by apply last_None in E.
Qed.

(** On an empty history the call raises at [price_arr[-1]]. *)
Lemma state_reward_gen_empty (t : F) (a : loc) (action : ActionType)
    (dt : F) (w : World F RNG) :
  heap w !! a = Some [] ->
  state_reward_gen lib self (t, a) action dt w = (Raise IndexError, w).
Proof.
  intros Ha. unfold state_reward_gen.
  by rewrite (lookup_total_correct _ _ _ Ha).
Qed.

End StateRewardGen.

(** ** The MDP adapter *)

Lemma demo_heap (g : list R) :
  heap (demo_world g) !! (demo_state g).2 = Some [80%R].
Proof.
  unfold demo_world, demo_state, init_s, np_array. simpl.
  apply lookup_insert_eq.
Qed.

(** C1, as the code has it: a call on a state with a non-empty price history
    returns a next state whose time is [expiry + dt] after the action
    exercise and [current_time + dt] after the action continue. *)
Theorem next_time_after_step {F : Type} `{!FloatOps F} {RNG : Type}
    (lib : Library F RNG) (self : AmericanPricing F) (t : F) (a : loc)
    (action : ActionType) (dt : F) (w : World F RNG) (h : list F) :
  heap w !! a = Some h ->
  h <> [] ->
  exists arr reward w',
    state_reward_gen lib self (t, a) action dt w =
      (Ok ((if action then expiry self +! dt else t +! dt, arr), reward), w').
Proof.
  intros Ha Hh. destruct (last_is_Some h Hh) as [x Hx].
  rewrite (state_reward_gen_run lib self t a action dt w h x Ha Hx).
  destruct action; by eexists _, _, _.
Qed.

Lemma next_time_after_step_witness :
  heap (demo_world []) !! (demo_state []).2 = Some [80%R] /\
  [80%R] <> [] /\
  exists arr reward w',
    state_reward_gen demo_library script_option (0%R, (demo_state []).2)
      true (1 / 10)%R (demo_world []) =
      (Ok ((expiry script_option +! (1 / 10)%R, arr), reward), w').
Proof.
  split; [apply demo_heap|]. split; [done|].
  apply (next_time_after_step demo_library script_option 0%R
           (demo_state []).2 true (1 / 10)%R (demo_world []) [80%R]);
    [apply demo_heap|done].
Defined.

(** C1 as the spec words it fails: exercising the script's option in its
    initial state with [dt = 0.1] gives the next time [3 + 0.1], which is not
    the expiry 3. *)
Lemma next_time_is_not_expiry :
  exists arr reward w',
    state_reward_gen demo_library script_option (0%R, (demo_state []).2)
      true (1 / 10)%R (demo_world []) =
      (Ok (((3 + 1 / 10)%R, arr), reward), w') /\
    (3 + 1 / 10)%R <> expiry script_option.
Proof.
  eexists _, _, _. split.
  - by rewrite (state_reward_gen_run demo_library script_option 0%R
                  (demo_state []).2 true (1 / 10)%R (demo_world [])
                  [80%R] 80%R (demo_heap []) eq_refl).
  - simpl. lra.
Qed.

(** Why the code adds [dt] to the expiry: the state after an exercise is
    terminal at the next check, which a next time equal to the expiry would
    not be. *)
Lemma exercised_state_is_terminal {RNG : Type} (lib : Library R RNG)
    (self : AmericanPricing R) (t : R) (a : loc) (dt : R)
    (w : World R RNG) (h : list R) :
  heap w !! a = Some h ->
  h <> [] ->
  (0 < dt)%R ->
  exists s' reward w',
    state_reward_gen lib self (t, a) true dt w = (Ok (s', reward), w') /\
    terminal_state self s' = true /\
    terminal_state self (expiry self, s'.2) = false.
Proof.
  intros Ha Hh Hdt. destruct (last_is_Some h Hh) as [x Hx].
  rewrite (state_reward_gen_run lib self t a true dt w h x Ha Hx).
  eexists _, _, _. split; [done|]. unfold terminal_state. split.
  - apply R_fgt_true. simpl. lra.
  - apply R_fgt_false. simpl. lra.
Qed.

(** C4: on a state with a non-empty price history, the reward of the action
    exercise is [exp(-ir(t)) * payoff(t, price_history)] and the reward of the
    action continue is [0.]. *)
Theorem reward_of_step {F : Type} `{!FloatOps F} {RNG : Type}
    (lib : Library F RNG) (self : AmericanPricing F) (t : F) (a : loc)
    (dt : F) (w : World F RNG) (h : list F) :
  heap w !! a = Some h ->
  h <> [] ->
  (exists s' w',
     state_reward_gen lib self (t, a) true dt w =
       (Ok (s', fexp (fneg (ir self t)) *! payoff self t h), w')) /\
  (exists s' w',
     state_reward_gen lib self (t, a) false dt w = (Ok (s', fzero), w')).
Proof.
  intros Ha Hh. destruct (last_is_Some h Hh) as [x Hx].
  rewrite !(state_reward_gen_run lib self t a _ dt w h x Ha Hx).
  split; by eexists _, _.
Qed.

Lemma reward_of_step_witness :
  heap (demo_world []) !! (demo_state []).2 = Some [80%R] /\
  [80%R] <> [] /\
  (exists s' w',
     state_reward_gen demo_library script_option (0%R, (demo_state []).2)
       true (1 / 10)%R (demo_world []) =
       (Ok (s', (exp (- (3 / 100 * 0)) * (80 - 85))%R), w')) /\
  (exists s' w',
     state_reward_gen demo_library script_option (0%R, (demo_state []).2)
       false (1 / 10)%R (demo_world []) = (Ok (s', 0%R), w')).
Proof.
  split; [apply demo_heap|]. split; [done|].
  exact (reward_of_step demo_library script_option 0%R
           (demo_state []).2 (1 / 10)%R (demo_world []) [80%R]
           (demo_heap []) ltac:(done)).
Defined.

(** C8: [terminal_state] answers true exactly on the states whose time is
    greater than the expiry, and false exactly on those whose time is at
    most the expiry. *)
Theorem terminal_state_iff (self : AmericanPricing R) (s : StateType R) :
  (terminal_state self s = true <-> (s.1 > expiry self)%R) /\
  (terminal_state self s = false <-> (s.1 <= expiry self)%R).
Proof.
  unfold terminal_state. split; [apply R_fgt_true|apply R_fgt_false].
Qed.

(** C10: a call on a state with a non-empty price history [h] leaves every
    array of the store as it was, the input history included; the history of
    the next state is an array the store did not hold before, of length
    [len(h) + 1], equal to [h] on the first [len(h)] positions and ending
    with the price just drawn. *)
Theorem history_is_appended {F : Type} `{!FloatOps F} {RNG : Type}
    (lib : Library F RNG) (self : AmericanPricing F) (t : F) (a : loc)
    (action : ActionType) (dt : F) (w : World F RNG) (h : list F) (x : F) :
  heap w !! a = Some h ->
  last h = Some x ->
  let mv := get_future_price_mean_var lib x t dt (ir self) (dispersion self) in
  let next_price := (normal lib mv.1 (fsqrt mv.2) (rng w)).1 in
  exists t' a' reward w' h',
    state_reward_gen lib self (t, a) action dt w =
      (Ok ((t', a'), reward), w') /\
    (forall l, is_Some (heap w !! l) -> heap w' !! l = heap w !! l) /\
    heap w' !! a = Some h /\
    heap w !! a' = None /\
    heap w' !! a' = Some h' /\
    length h' = length h + 1 /\
    (forall i, i < length h -> h' !! i = h !! i) /\
    last h' = Some next_price.
Proof.
  intros Ha Hx mv next_price.
  rewrite (state_reward_gen_run lib self t a action dt w h x Ha Hx).
  fold mv. set (l := fresh (dom (heap w))).
  assert (Hl : heap w !! l = None).
  { apply not_elem_of_dom, is_fresh. }
  assert (Hold : forall l', is_Some (heap w !! l') ->
            <[l := h ++ [next_price]]> (heap w) !! l' = heap w !! l').
  { intros l' [v Hv]. apply lookup_insert_ne. intros ->. congruence. }
  eexists _, l, _, _, (h ++ [next_price]). split; [done|]. simpl.
  split; [done|]. split; [by rewrite Hold, Ha|]. split; [done|].
  split; [apply lookup_insert_eq|]. split; [by rewrite length_app|].
  split; [by intros i Hi; apply lookup_app_l|apply last_snoc].
Qed.

Lemma history_is_appended_witness :
  heap (demo_world [1%R]) !! (demo_state [1%R]).2 = Some [80%R] /\
  last [80%R] = Some 80%R /\
  exists t' a' reward w' h',
    state_reward_gen demo_library script_option (0%R, (demo_state [1%R]).2)
      false (1 / 10)%R (demo_world [1%R]) = (Ok ((t', a'), reward), w') /\
    (forall l, is_Some (heap (demo_world [1%R]) !! l) ->
               heap w' !! l = heap (demo_world [1%R]) !! l) /\
    heap w' !! (demo_state [1%R]).2 = Some [80%R] /\
    heap (demo_world [1%R]) !! a' = None /\
    heap w' !! a' = Some h' /\
    length h' = 2 /\
    (forall i, i < 1 -> h' !! i = [80%R] !! i) /\
    last h' =
      Some (draw_normal
              (moments_spec 80 0 (1 / 10) (ir script_option)
                 (dispersion script_option)).1
              (sqrt (moments_spec 80 0 (1 / 10) (ir script_option)
                       (dispersion script_option)).2) [1%R]).1.
Proof.
  split; [apply demo_heap|]. split; [done|].
  exact (history_is_appended demo_library script_option 0%R
           (demo_state [1%R]).2 false (1 / 10)%R (demo_world [1%R])
           [80%R] 80%R (demo_heap [1%R]) eq_refl).
Defined.

(** ** The path ensemble *)

Section Paths.
Context {F : Type} `{!FloatOps F} {RNG : Type}.
Variable lib : Library F RNG.
Variable self : AmericanPricing F.

Lemma np_empty_set_column0 (rows cols : nat) (x : F) :
  0 < cols -> ensemble rows cols x (set_column0 x (np_empty lib rows cols)).
Proof.
  intros Hc. unfold ensemble, set_column0, np_empty. split.
  - by rewrite length_fmap, length_replicate.
  - apply Forall_fmap, Forall_replicate. simpl.
    rewrite length_insert, length_replicate. split; [done|].
    apply list_lookup_insert_eq. by rewrite length_replicate.
Qed.

(** A write at a column other than the first keeps both. *)
Lemma set_entry_ensemble (rows cols : nat) (x y : F) (i j : nat)
    (a : list (list F)) :
  ensemble rows cols x a -> ensemble rows cols x (set_entry i (j + 1) y a).
Proof.
  intros [Hlen Hrows]. unfold ensemble, set_entry. split.
  - by rewrite length_alter.
  - apply Forall_alter; [done|]. intros row _ [Hr H0].
    rewrite length_insert. split; [done|].
    rewrite list_lookup_insert_ne; [done|lia].
Qed.

Lemma simulate_paths_ensemble (rows cols : nat) (x : F)
    (num_dt num_paths : nat) (dt : F) (a : list (list F)) (g : RNG) :
  ensemble rows cols x a ->
  ensemble rows cols x (simulate_paths lib self num_dt num_paths dt a g).1.
Proof.
  unfold simulate_paths. revert a g.
  apply (for_loop_inv (ensemble rows cols x)).
  intros i a g _ Ha. rewrite bind_run.
  match goal with |- context [for_loop ?xs ?body ?s g] =>
    set (X := for_loop xs body s g) end.
  assert (HX : ensemble rows cols x X.1.2).
  { unfold X.
    apply (for_loop_inv
             (fun st : F * list (list F) => ensemble rows cols x st.2));
      [|done].
    intros t [price a'] g' _ Ha'. simpl in *.
    destruct (get_future_price_mean_var _ _ _ _ _ _) as [m v].
    rewrite bind_run. simpl. by apply set_entry_ensemble. }
  by destruct X as [[price a'] g'].
Qed.

End Paths.

(** C9: for positive [num_dt] and [num_paths] and any state of the
    generator, the ensemble simulated by [get_ls_price] has [num_paths] rows,
    each of [num_dt + 1] entries, the first of which is the spot price. *)
Theorem path_ensemble_shape {F : Type} `{!FloatOps F} {RNG : Type}
    (lib : Library F RNG) (self : AmericanPricing F) (num_dt num_paths : Z)
    (g : RNG) :
  (0 < num_dt)%Z ->
  (0 < num_paths)%Z ->
  let paths := (path_ensemble lib self num_dt num_paths g).1 in
  Z.of_nat (length paths) = num_paths /\
  forall i, i < length paths ->
    exists row, paths !! i = Some row /\
                Z.of_nat (length row) = (num_dt + 1)%Z /\
                row !! 0%nat = Some (spot_price self).
Proof.
  intros Hdt Hp paths.
  destruct (simulate_paths_ensemble lib self (Z.to_nat num_paths)
              (Z.to_nat (num_dt + 1)) (spot_price self) (Z.to_nat num_dt)
              (Z.to_nat num_paths) (expiry self /! of_int num_dt)
              (set_column0 (spot_price self)
                 (np_empty lib (Z.to_nat num_paths) (Z.to_nat (num_dt + 1))))
              g) as [Hlen Hrows].
  { apply np_empty_set_column0. lia. }
  fold (path_ensemble lib self num_dt num_paths) in Hlen, Hrows.
  fold paths in Hlen, Hrows. split; [lia|].
  intros i Hi. destruct (lookup_lt_is_Some_2 paths i Hi) as [row Hrow].
  exists row. split; [done|].
  destruct (proj1 (Forall_lookup _ _) Hrows i row Hrow) as [Hr H0].
  split; [lia|done].
Qed.

Lemma path_ensemble_shape_witness :
  (0 < 2)%Z /\ (0 < 1)%Z /\
  let paths := (path_ensemble demo_library script_option 2 1 [1%R]).1 in
  Z.of_nat (length paths) = 1%Z /\
  forall i, i < length paths ->
    exists row, paths !! i = Some row /\
                Z.of_nat (length row) = (2 + 1)%Z /\
                row !! 0%nat = Some (spot_price script_option).
Proof.
  split; [lia|]. split; [lia|].
  exact (path_ensemble_shape demo_library script_option 2 1 [1%R]
           ltac:(lia) ltac:(lia)).
Defined.

(** ** The entry point [get_ls_price] *)

Section Entry.
Context {F : Type} `{!FloatOps F} {RNG : Type}.
Variable lib : Library F RNG.
Variable self : AmericanPricing F.
Variable feature_funcs : list (F -> list F -> F).

(** With at least one time step and no negative size nothing raises: the
    paths are simulated, the backward loop runs and a price is returned. *)
Lemma get_ls_price_run (num_dt num_paths : Z) (g : RNG) :
  (1 <= num_dt)%Z ->
  (0 <= num_paths)%Z ->
  let dt := expiry self /! of_int num_dt in
  let sim := path_ensemble lib self num_dt num_paths g in
  get_ls_price lib self num_dt num_paths feature_funcs g =
    (Ok (final_price lib self dt
           (backward_induction lib self (Z.to_nat num_dt)
              (Z.to_nat num_paths) dt sim.1 feature_funcs)),
     sim.2).
Proof.
  intros Hdt Hp dt sim. unfold get_ls_price.
  destruct (decide (num_dt = 0)%Z); [lia|].
  destruct (decide (num_paths < 0 \/ num_dt + 1 < 0)%Z); [lia|].
  destruct (decide (num_dt + 1 = 0)%Z); [lia|].
  by rewrite bind_run.
Qed.

End Entry.

(** C5: for positive [num_dt] and [num_paths] and any state of the
    generator, [get_ls_price] returns
    [max(payoff(0, [spot]), average(cashflow * exp(-ir(dt))))] where
    [dt = expiry / num_dt] and [cashflow] is the vector the backward loop
    ends with. *)
Theorem returned_price {F : Type} `{!FloatOps F} {RNG : Type}
    (lib : Library F RNG) (self : AmericanPricing F)
    (feature_funcs : list (F -> list F -> F)) (num_dt num_paths : Z)
    (g : RNG) :
  (0 < num_dt)%Z ->
  (0 < num_paths)%Z ->
  let dt := expiry self /! of_int num_dt in
  let sim := path_ensemble lib self num_dt num_paths g in
  let cashflow :=
    backward_induction lib self (Z.to_nat num_dt) (Z.to_nat num_paths) dt
      sim.1 feature_funcs in
  get_ls_price lib self num_dt num_paths feature_funcs g =
    (Ok (py_max (payoff self (of_int 0) [spot_price self])
           (np_average lib
              ((fun c => c *! fexp (fneg (ir self dt))) <$> cashflow))),
     sim.2).
Proof.
  intros Hdt Hp. cbv zeta.
  by rewrite get_ls_price_run by lia.
Qed.

Lemma returned_price_witness :
  (0 < 2)%Z /\ (0 < 1)%Z /\
  get_ls_price demo_library script_option 2 1 demo_features [1%R; 1%R] =
    (Ok (py_max (payoff script_option 0%R [80%R])
           (Raverage
              ((fun c => c * exp (- ir script_option (3 / 2)))%R <$>
               backward_induction demo_library script_option 2 1 (3 / 2)%R
                 (path_ensemble demo_library script_option 2 1
                    [1%R; 1%R]).1 demo_features))),
     (path_ensemble demo_library script_option 2 1 [1%R; 1%R]).2).
Proof.
  split; [lia|]. split; [lia|].
  exact (returned_price demo_library script_option demo_features 2 1
           [1%R; 1%R] ltac:(lia) ltac:(lia)).
Defined.

(** C2 as the spec words it fails: with the expiry 0 the script's option is
    priced like any other.  [dt] is 0, the one draw is taken from the
    generator and returns the mean 80, the cash flow at expiry is
    [max(80 - 85, 0.) = 0] and the price is [max(-5, 0) = 0]. *)
Lemma zero_expiry_is_priced :
  (expiry (with_expiry 0 script_option) <= 0)%R /\
  get_ls_price demo_library (with_expiry 0 script_option) 1 1 demo_features
    [1%R] = (Ok 0%R, []).
Proof.
  split; [simpl; lra|].
  rewrite get_ls_price_run by lia. cbv zeta.
  unfold final_price, backward_induction, terminal_cashflow. simpl.
  change (Z.of_nat 0) with 0%Z.
  replace (25 / 100 * 80 * (25 / 100 * 80) * (0 / 1))%R with 0%R by lra.
  rewrite sqrt_0, !R_py_max. unfold Raverage, Rsum. simpl.
  rewrite (Rmax_right _ 0) by lra.
  do 2 f_equal. rewrite Rmax_right; lra.
Qed.

(** Zero paths are not refused either: nothing is drawn and a value is
    returned. *)
Lemma zero_paths_is_priced :
  exists price,
    get_ls_price demo_library script_option 1 0 demo_features [1%R] =
      (Ok price, [1%R]).
Proof. eexists. by rewrite get_ls_price_run by lia. Qed.

(** C2, as the code has it: the method has no check of its own.  With
    [num_dt <= 0] or [num_paths < 0] it fails before any simulation, at the
    division, at [np.empty] or at the first column, and the generator is as
    it was.  Nothing else is refused: with [1 <= num_dt <= 2^20] and at most
    [2^20] entries to allocate, zero paths included, it simulates with
    [dt = expiry / num_dt] and returns the price computed from what the
    library routines return, whatever the expiry and the dispersion are. *)
Theorem get_ls_price_checks_nothing {F : Type} `{!FloatOps F} {RNG : Type}
    (lib : Library F RNG) (self : AmericanPricing F)
    (feature_funcs : list (F -> list F -> F)) (num_dt num_paths : Z)
    (g : RNG) :
  ((num_dt <= 0 \/ num_paths < 0)%Z ->
   exists e,
     get_ls_price lib self num_dt num_paths feature_funcs g = (Raise e, g)) /\
  ((1 <= num_dt <= 2 ^ 20)%Z ->
   (0 <= num_paths)%Z ->
   (num_paths * (num_dt + 1) <= 2 ^ 20)%Z ->
   let dt := expiry self /! of_int num_dt in
   let sim := path_ensemble lib self num_dt num_paths g in
   get_ls_price lib self num_dt num_paths feature_funcs g =
     (Ok (final_price lib self dt
            (backward_induction lib self (Z.to_nat num_dt)
               (Z.to_nat num_paths) dt sim.1 feature_funcs)),
      sim.2)).
Proof.
  split.
  - intros Hbad. unfold get_ls_price.
    destruct (decide (num_dt = 0)%Z); [by eexists|].
    destruct (decide (num_paths < 0 \/ num_dt + 1 < 0)%Z); [by eexists|].
    destruct (decide (num_dt + 1 = 0)%Z); [by eexists|]. lia.
  - intros Hdt Hp _. apply get_ls_price_run; lia.
Qed.

(** ** One step of the backward loop *)

Section Step.
Context {F : Type} `{!FloatOps F} {RNG : Type}.
Variable lib : Library F RNG.
Variable self : AmericanPricing F.

Lemma payoff_at_lookup (num_paths : nat) (paths : list (list F)) (t i : nat) :
  i < num_paths ->
  payoff_at self num_paths paths t !!! i =
    payoff self (of_int (Z.of_nat t)) (take (t + 1) (paths !!! i)).
Proof.
  intros Hi. unfold payoff_at, range.
  rewrite (list_lookup_total_fmap _ (seq 0 num_paths) i)
    by (by rewrite length_seq).
  by rewrite lookup_total_seq_lt.
Qed.

Lemma elem_of_in_the_money (num_paths : nat) (payoff_ : list F) (i : nat) :
  i ∈ in_the_money num_paths payoff_ <->
  (payoff_ !!! i >! fzero) = true /\ i < num_paths.
Proof.
  unfold in_the_money, range. rewrite list_elem_of_filter, elem_of_seq.
  intuition lia.
Qed.

(** The exercise decision writes at the indices it is given and nowhere
    else. *)
Lemma exercise_frame (payoff_ estimate : list F) (indices : list nat)
    (cashflow : list F) (j : nat) :
  j ∉ indices ->
  exercise payoff_ estimate indices cashflow !! j = cashflow !! j.
Proof.
  intros Hj. unfold exercise.
  assert (Hz : Forall (fun p : nat * nat => p.2 <> j)
                 (zip (seq 0 (length indices)) indices)).
  { apply Forall_forall. intros [i ind] Hin. simpl. intros ->. apply Hj.
    by apply elem_of_zip_r in Hin. }
  revert cashflow. induction Hz as [|[i ind] l Hne _ IH]; intros cashflow;
    simpl; [done|].
  rewrite IH. destruct (_ >! _); [|done].
  by apply list_lookup_insert_ne.
Qed.

(** Whatever it writes is the payoff of a path in the money. *)
Lemma exercise_Forall (P : F -> Prop) (payoff_ estimate : list F)
    (indices : list nat) (cashflow : list F) :
  Forall (fun ind => P (payoff_ !!! ind)) indices ->
  Forall P cashflow ->
  Forall P (exercise payoff_ estimate indices cashflow).
Proof.
  intros Hind. unfold exercise.
  assert (Hz : Forall (fun p : nat * nat => P (payoff_ !!! p.2))
                 (zip (seq 0 (length indices)) indices)).
  { apply Forall_forall. intros [i ind] Hin. simpl.
    apply elem_of_zip_r in Hin. simpl in Hin.
    by apply (proj1 (Forall_forall _ _) Hind). }
  revert cashflow. induction Hz as [|[i ind] l Hp _ IH]; intros cashflow Hc;
    simpl; [done|].
  apply IH. destruct (_ >! _); [|done]. by apply Forall_insert.
Qed.

Lemma exercise_length (payoff_ estimate : list F) (indices : list nat)
    (cashflow : list F) :
  length (exercise payoff_ estimate indices cashflow) = length cashflow.
Proof.
  unfold exercise. generalize (zip (seq 0 (length indices)) indices).
  intros l. revert cashflow. induction l as [|[i ind] l IH]; intros cashflow;
    simpl; [done|].
  rewrite IH. destruct (_ >! _); [|done]. apply length_insert.
Qed.

Lemma terminal_cashflow_length (num_paths : nat) (paths : list (list F)) :
  length (terminal_cashflow self num_paths paths) = num_paths.
Proof. unfold terminal_cashflow, range. by rewrite length_fmap, length_seq. Qed.

Lemma payoff_at_length (num_paths : nat) (paths : list (list F)) (t : nat) :
  length (payoff_at self num_paths paths t) = num_paths.
Proof. unfold payoff_at, range. by rewrite length_fmap, length_seq. Qed.

(** The estimate has one entry per path in the money, so [estimate[i]] is
    in range along [enumerate(indices)]. *)
Lemma np_dot_length (x : list (list F)) (b : list F) :
  length (np_dot lib x b) = length x.
Proof. unfold np_dot. apply length_fmap. Qed.

(** The step keeps the length of the cash-flow vector. *)
Lemma ls_step_length (num_paths : nat) (dt : F) (paths : list (list F))
    (feature_funcs : list (F -> list F -> F)) (t : nat)
    (cashflow : list F) :
  length (ls_step lib self num_paths dt paths feature_funcs t cashflow) =
    length cashflow.
Proof.
  unfold ls_step. destruct (decide _); [rewrite exercise_length|];
    apply length_fmap.
Qed.

(** So the cash-flow vector has one entry per path throughout, and the
    indices of the paths in the money are in range for it. *)
Lemma backward_induction_length (num_dt num_paths : nat) (dt : F)
    (paths : list (list F)) (feature_funcs : list (F -> list F -> F)) :
  length (backward_induction lib self num_dt num_paths dt paths
            feature_funcs) = num_paths.
Proof.
  unfold backward_induction.
  rewrite <- (terminal_cashflow_length num_paths paths) at 2.
  generalize (terminal_cashflow self num_paths paths).
  induction (range_down num_dt) as [|t ts IH]; intros cashflow; simpl;
    [done|].
  by rewrite IH, ls_step_length.
Qed.

(** A path that is not in the money keeps its discounted cash flow. *)
Lemma ls_step_frame (num_paths : nat) (dt : F) (paths : list (list F))
    (feature_funcs : list (F -> list F -> F)) (t : nat)
    (cashflow : list F) (i : nat) :
  (payoff self (of_int (Z.of_nat t)) (take (t + 1) (paths !!! i)) >! fzero)
    = false ->
  ls_step lib self num_paths dt paths feature_funcs t cashflow !! i =
    (fun c => c *! disc self dt t) <$> cashflow !! i.
Proof.
  intros Hp. unfold ls_step. rewrite <- list_lookup_fmap.
  destruct (decide _); [|done].
  apply exercise_frame. intros [Hitm Hi]%elem_of_in_the_money.
  rewrite payoff_at_lookup in Hitm by done. congruence.
Qed.

(** With no path in the money the step only discounts. *)
Lemma ls_step_none_in_the_money (num_paths : nat) (dt : F)
    (paths : list (list F)) (feature_funcs : list (F -> list F -> F))
    (t : nat) (cashflow : list F) :
  (forall i, i < num_paths ->
     (payoff self (of_int (Z.of_nat t)) (take (t + 1) (paths !!! i))
        >! fzero) = false) ->
  ls_step lib self num_paths dt paths feature_funcs t cashflow =
    (fun c => c *! disc self dt t) <$> cashflow.
Proof.
  intros Hnone. unfold ls_step.
  destruct (decide _) as [Hlen|]; [|done]. exfalso.
  destruct (in_the_money _ _) as [|i l] eqn:E; [simpl in Hlen; lia|].
  assert (Hi : i ∈ in_the_money num_paths (payoff_at self num_paths paths t))
    by (rewrite E; left).
  apply elem_of_in_the_money in Hi as [Hitm Hi].
  rewrite payoff_at_lookup in Hitm by done.
  rewrite Hnone in Hitm by done. done.
Qed.

End Step.

(** C7: at a step of the backward loop, a path whose immediate payoff is not
    greater than 0 ends the step with its cash flow multiplied by the
    discount factor of the step, whatever the regression gives. *)
Theorem out_of_the_money_untouched {F : Type} `{!FloatOps F} {RNG : Type}
    (lib : Library F RNG) (self : AmericanPricing F) (num_paths : nat)
    (dt : F) (paths : list (list F))
    (feature_funcs : list (F -> list F -> F)) (t : nat)
    (cashflow : list F) (i : nat) (c : F) :
  cashflow !! i = Some c ->
  (payoff self (of_int (Z.of_nat t)) (take (t + 1) (paths !!! i)) >! fzero)
    = false ->
  ls_step lib self num_paths dt paths feature_funcs t cashflow !! i =
    Some (c *! disc self dt t).
Proof.
  intros Hc Hp. rewrite ls_step_frame by done. by rewrite Hc.
Qed.

(** C3, as the code has it: at a step where no path has an immediate payoff
    greater than 0, the cash-flow vector is multiplied by the discount factor
    of the step and nothing else happens to it. *)
Theorem no_path_in_the_money {F : Type} `{!FloatOps F} {RNG : Type}
    (lib : Library F RNG) (self : AmericanPricing F) (num_paths : nat)
    (dt : F) (paths : list (list F))
    (feature_funcs : list (F -> list F -> F)) (t : nat)
    (cashflow : list F) :
  (forall i, i < num_paths ->
     (payoff self (of_int (Z.of_nat t)) (take (t + 1) (paths !!! i))
        >! fzero) = false) ->
  ls_step lib self num_paths dt paths feature_funcs t cashflow =
    (fun c => c *! disc self dt t) <$> cashflow.
Proof. apply ls_step_none_in_the_money. Qed.

(** ** Over the reals: signs and bounds *)

Section Bounds.
Context {RNG : Type}.
Variable lib : Library R RNG.
Variable self : AmericanPricing R.

Lemma terminal_cashflow_nonneg (num_paths : nat) (paths : list (list R)) :
  Forall (Rle 0) (terminal_cashflow self num_paths paths).
Proof.
  unfold terminal_cashflow. apply Forall_fmap, Forall_forall. intros i _.
  simpl. rewrite R_py_max. apply Rmax_r.
Qed.

(** A step keeps the cash flows non-negative: it scales by an exponential
    and overwrites with payoffs that are greater than 0. *)
Lemma ls_step_nonneg (num_paths : nat) (dt : R) (paths : list (list R))
    (feature_funcs : list (R -> list R -> R)) (t : nat)
    (cashflow : list R) :
  Forall (Rle 0) cashflow ->
  Forall (Rle 0) (ls_step lib self num_paths dt paths feature_funcs t cashflow).
Proof.
  intros Hc. unfold ls_step.
  assert (Hd : Forall (Rle 0) ((fun c => c *! disc self dt t) <$> cashflow)).
  { apply Forall_fmap. eapply Forall_impl; [exact Hc|]. intros c Hc0.
    unfold disc. simpl.
    match goal with |- context [exp ?x] => pose proof (exp_pos x) end.
    nra. }
  destruct (decide _); [|done].
  apply exercise_Forall; [|done]. apply Forall_forall.
  intros ind [Hitm _]%elem_of_in_the_money.
  apply R_fgt_true in Hitm. unfold fzero in Hitm. simpl in Hitm. lra.
Qed.

Lemma backward_induction_nonneg (num_dt num_paths : nat) (dt : R)
    (paths : list (list R)) (feature_funcs : list (R -> list R -> R)) :
  Forall (Rle 0)
    (backward_induction lib self num_dt num_paths dt paths feature_funcs).
Proof.
  unfold backward_induction.
  generalize (terminal_cashflow_nonneg num_paths paths).
  generalize (terminal_cashflow self num_paths paths).
  induction (range_down num_dt) as [|t ts IH]; intros cashflow Hc; simpl;
    [done|].
  by apply IH, ls_step_nonneg.
Qed.


End Bounds.




(** ** The step on the script's option *)

Lemma demo_terminal_cashflow :
  terminal_cashflow script_option 1 demo_paths = [5%R].
Proof.
  unfold terminal_cashflow. simpl. rewrite R_py_max.
  rewrite Rmax_left by lra. f_equal. lra.
Qed.

Lemma demo_out_of_the_money :
  (payoff script_option (of_int (Z.of_nat 1))
     (take (1 + 1) (demo_paths !!! 0%nat)) >! fzero) = false.
Proof. apply R_fgt_false. simpl. lra. Qed.

Lemma demo_disc_lt_1 : (disc script_option (3 / 2) 1 < 1)%R.
Proof.
  unfold disc. simpl. rewrite <- exp_0. apply exp_increasing. lra.
Qed.

Lemma mixed_paths_in_the_money :
  in_the_money 2 (payoff_at script_option 2 mixed_paths 1) = [0].
Proof.
  unfold in_the_money, range. simpl.
  rewrite filter_cons_True by (apply R_fgt_true; simpl; lra).
  rewrite filter_cons_False; [done|].
  intros Hitm. apply R_fgt_true in Hitm. simpl in Hitm. lra.
Qed.

Lemma mixed_paths_out_of_the_money :
  (payoff script_option (of_int (Z.of_nat 1))
     (take (1 + 1) (mixed_paths !!! 1%nat)) >! fzero) = false.
Proof. apply R_fgt_false. simpl. lra. Qed.

(** Two paths at step 1: the first is in the money, so the regression and
    the exercise decision run; the second is not and keeps its discounted
    cash flow. *)
Lemma out_of_the_money_untouched_witness :
  in_the_money 2 (payoff_at script_option 2 mixed_paths 1) = [0] /\
  [5%R; 5%R] !! 1%nat = Some 5%R /\
  (payoff script_option (of_int (Z.of_nat 1))
     (take (1 + 1) (mixed_paths !!! 1%nat)) >! fzero) = false /\
  ls_step demo_library script_option 2 (3 / 2)%R mixed_paths demo_features 1
    [5%R; 5%R] !! 1%nat = Some (5 * disc script_option (3 / 2) 1)%R.
Proof.
  split; [apply mixed_paths_in_the_money|]. split; [done|].
  split; [apply mixed_paths_out_of_the_money|].
  exact (out_of_the_money_untouched demo_library script_option 2 (3 / 2)%R
           mixed_paths demo_features 1 [5%R; 5%R] 1 5%R eq_refl
           mixed_paths_out_of_the_money).
Defined.

Lemma demo_none_in_the_money (i : nat) :
  i < 1 ->
  (payoff script_option (of_int (Z.of_nat 1)) (take (1 + 1) (demo_paths !!! i))
     >! fzero) = false.
Proof.
  intros Hi. replace i with 0 by lia. apply demo_out_of_the_money.
Qed.

Lemma no_path_in_the_money_witness :
  (forall i, i < 1 ->
     (payoff script_option (of_int (Z.of_nat 1))
        (take (1 + 1) (demo_paths !!! i)) >! fzero) = false) /\
  ls_step demo_library script_option 1 (3 / 2)%R demo_paths demo_features 1
    [5%R] = [(5 * disc script_option (3 / 2) 1)%R].
Proof.
  split; [apply demo_none_in_the_money|].
  exact (no_path_in_the_money demo_library script_option 1 (3 / 2)%R
           demo_paths demo_features 1 [5%R] demo_none_in_the_money).
Defined.

(** C3 as the spec words it fails: the script's option over two steps, on
    the path 80, 80, 90.  The cash flow at expiry is 5; at step 1 the payoff
    is -5, so no path is in the money, and the step turns the cash flow
    into [5 * exp(ir(1) - ir(1 + dt))], which is less than 5. *)
Lemma discounting_is_not_a_no_op :
  terminal_cashflow script_option 1 demo_paths = [5%R] /\
  (payoff script_option 1 (take 2 (demo_paths !!! 0%nat)) <= 0)%R /\
  ls_step demo_library script_option 1 (3 / 2)%R demo_paths demo_features 1
    [5%R] <> [5%R].
Proof.
  split; [apply demo_terminal_cashflow|]. split; [simpl; lra|].
  rewrite ls_step_none_in_the_money by apply demo_none_in_the_money.
  simpl. intros [= H]. pose proof demo_disc_lt_1 as Hd.
  change (5 * disc script_option (3 / 2) 1 = 5)%R in H. lra.
Qed.

(** ** The ensemble as a list of drawn paths *)

Section Drawn.
Context {F : Type} `{!FloatOps F} {RNG : Type}.
Variable lib : Library F RNG.
Variable self : AmericanPricing F.

Lemma set_entry_app (a : list (list F)) (i : nat) (pre suf : list F)
    (x y : F) :
  a !! i = Some (pre ++ y :: suf) ->
  set_entry i (length pre) x a = <[i := (pre ++ [x]) ++ suf]> a.
Proof.
  intros Ha. unfold set_entry.
  apply list_eq. intros j. rewrite list_lookup_alter.
  destruct (decide (i = j)) as [->|Hne].
  - rewrite Ha. simpl.
    rewrite list_lookup_insert_eq by (by eapply lookup_lt_Some).
    f_equal. rewrite <- (Nat.add_0_r (length pre)).
    rewrite insert_app_r. simpl. by rewrite <- app_assoc.
  - by rewrite list_lookup_insert_ne.
Qed.

Lemma for_loop_cons {S A St} (x : A) (xs : list A)
    (body : A -> St -> M S St) (s : St) (g : S) :
  for_loop (x :: xs) body s g = for_loop xs body (body x s g).1 (body x s g).2.
Proof. simpl. apply bind_run. Qed.

Lemma drawn_prices_cons (dt : F) (t : nat) (ts : list nat) (price : F)
    (g : RNG) :
  let mv :=
    get_future_price_mean_var lib price (of_int (Z.of_nat t)) dt (ir self)
      (dispersion self) in
  let d := normal lib mv.1 (fsqrt mv.2) g in
  drawn_prices lib self dt (t :: ts) price g =
    (d.1 :: (drawn_prices lib self dt ts d.1 d.2).1,
     (drawn_prices lib self dt ts d.1 d.2).2).
Proof.
  simpl. destruct (get_future_price_mean_var _ _ _ _ _ _) as [m v]. simpl.
  unfold bind, ret. destruct (normal lib m (fsqrt v) g) as [p g1]. simpl.
  by destruct (drawn_prices lib self dt ts p g1).
Qed.

Lemma inner_loop_draws (dt : F) (i n : nat) :
  forall (s : nat) (price : F) (a : list (list F)) (pre suf : list F)
         (g : RNG),
  a !! i = Some (pre ++ suf) ->
  length pre = s + 1 ->
  length suf = n ->
  for_loop (seq s n) (fun t '(price, paths) =>
      let '(m, v) :=
        get_future_price_mean_var lib price (of_int (Z.of_nat t)) dt
          (ir self) (dispersion self) in
      price <- normal lib m (fsqrt v) ;;
      ret (price, set_entry i (t + 1) price paths)) (price, a) g =
  ((default price (last (drawn_prices lib self dt (seq s n) price g).1),
    <[i := pre ++ (drawn_prices lib self dt (seq s n) price g).1]> a),
   (drawn_prices lib self dt (seq s n) price g).2).
Proof.
  set (body := fun (t : nat) '(price, paths) => _).
  induction n as [|n IH]; intros s price a pre suf g Ha Hpre Hsuf.
  - destruct suf; [|done]. simpl. by rewrite list_insert_id.
  - destruct suf as [|y suf]; [done|]. simpl in Hsuf.
    change (seq s (S n)) with (s :: seq (S s) n).
    rewrite drawn_prices_cons. cbv zeta.
    set (mv := get_future_price_mean_var lib price _ dt _ _).
    set (d := normal lib mv.1 (fsqrt mv.2) g).
    assert (Hb : body s (price, a) g =
                 ((d.1, set_entry i (s + 1) d.1 a), d.2)).
    { unfold body, d, mv.
      destruct (get_future_price_mean_var _ _ _ _ _ _) as [m v]. simpl.
      unfold bind, ret. by destruct (normal lib m (fsqrt v) g). }
    rewrite for_loop_cons, Hb. simpl.
    replace (s + 1) with (length pre) by lia.
    rewrite (set_entry_app a i pre suf d.1 y Ha).
    rewrite (IH (S s) d.1 _ (pre ++ [d.1]) suf d.2).
    + rewrite list_insert_insert_eq, <- app_assoc. simpl.
      f_equal. f_equal.
      rewrite last_cons. by destruct (last _).
    + apply list_lookup_insert_eq. by eapply lookup_lt_Some.
    + rewrite length_app. simpl. lia.
    + lia.
Qed.

Lemma drawn_paths_S (num_dt : nat) (dt : F) (n : nat) (g : RNG) :
  let r := drawn_prices lib self dt (range num_dt) (spot_price self) g in
  drawn_paths lib self num_dt dt (S n) g =
    ((spot_price self :: r.1) :: (drawn_paths lib self num_dt dt n r.2).1,
     (drawn_paths lib self num_dt dt n r.2).2).
Proof.
  simpl. unfold bind, ret.
  destruct (drawn_prices lib self dt (range num_dt) (spot_price self) g)
    as [row g1].
  simpl. by destruct (drawn_paths lib self num_dt dt n g1).
Qed.

(** The rows before [i] are final, the rows from [i] on still hold the
    spot and the content of fresh memory. *)
Lemma outer_loop_draws (num_dt : nat) (dt : F) (k : nat) :
  forall (rows : list (list F)) (g : RNG),
  for_loop (seq (length rows) k) (fun i paths =>
    '(_, paths) <-
      for_loop (range num_dt) (fun t '(price, paths) =>
        let '(m, v) :=
          get_future_price_mean_var lib price (of_int (Z.of_nat t)) dt
            (ir self) (dispersion self) in
        price <- normal lib m (fsqrt v) ;;
        ret (price, set_entry i (t + 1) price paths))
      (spot_price self, paths) ;;
    ret paths)
    (rows ++ replicate k (spot_price self
                          :: replicate num_dt (np_empty_fill lib))) g =
  (rows ++ (drawn_paths lib self num_dt dt k g).1,
   (drawn_paths lib self num_dt dt k g).2).
Proof.
  set (body := fun (i : nat) (paths : list (list F)) => _).
  induction k as [|k IH]; intros rows g; [done|].
  change (seq (length rows) (S k))
    with (length rows :: seq (S (length rows)) k).
  rewrite for_loop_cons, drawn_paths_S. cbv zeta.
  set (r := drawn_prices lib self dt (range num_dt) (spot_price self) g).
  set (init_row := spot_price self :: replicate num_dt (np_empty_fill lib)).
  assert (Hb : body (length rows) (rows ++ replicate (S k) init_row) g =
               ((rows ++ [spot_price self :: r.1]) ++ replicate k init_row,
                r.2)).
  { unfold body. rewrite bind_run. unfold range.
    rewrite (inner_loop_draws dt (length rows) num_dt 0 (spot_price self) _
               [spot_price self] (replicate num_dt (np_empty_fill lib)) g).
    - simpl. fold (range num_dt). fold r. unfold ret. f_equal.
      rewrite <- (Nat.add_0_r (length rows)), insert_app_r. simpl.
      by rewrite <- app_assoc.
    - by rewrite lookup_app_r, Nat.sub_diag.
    - done.
    - apply length_replicate. }
  rewrite Hb. cbn [fst snd]. subst init_row.
  specialize (IH (rows ++ [spot_price self :: r.1]) r.2).
  rewrite length_app in IH. simpl in IH.
  replace (length rows + 1) with (S (length rows)) in IH by lia.
  rewrite IH. by rewrite <- app_assoc.
Qed.

Lemma path_ensemble_drawn (num_dt num_paths : Z) (g : RNG) :
  (0 <= num_dt)%Z ->
  path_ensemble lib self num_dt num_paths g =
    drawn_paths lib self (Z.to_nat num_dt) (expiry self /! of_int num_dt)
      (Z.to_nat num_paths) g.
Proof.
  intros Hdt. unfold path_ensemble, simulate_paths, set_column0, np_empty.
  rewrite fmap_replicate.
  replace (Z.to_nat (num_dt + 1)) with (S (Z.to_nat num_dt)) by lia. simpl.
  pose proof (outer_loop_draws (Z.to_nat num_dt)
                (expiry self /! of_int num_dt) (Z.to_nat num_paths) [] g) as H.
  simpl in H. unfold range at 1. rewrite H.
  by destruct (drawn_paths _ _ _ _ _ g).
Qed.

End Drawn.

(** The drawn paths do not look at the content of fresh memory. *)
Lemma drawn_prices_with_fill {F : Type} `{!FloatOps F} {RNG : Type}
    (lib : Library F RNG) (self : AmericanPricing F) (x : F) (dt : F)
    (ts : list nat) :
  forall (price : F) (g : RNG),
  drawn_prices (with_fill lib x) self dt ts price g =
    drawn_prices lib self dt ts price g.
Proof.
  induction ts as [|t ts IH]; intros price g; [done|].
  rewrite !drawn_prices_cons. cbv zeta. simpl. by rewrite IH.
Qed.

Lemma drawn_paths_with_fill {F : Type} `{!FloatOps F} {RNG : Type}
    (lib : Library F RNG) (self : AmericanPricing F) (x : F) (num_dt : nat)
    (dt : F) (n : nat) :
  forall g : RNG,
  drawn_paths (with_fill lib x) self num_dt dt n g =
    drawn_paths lib self num_dt dt n g.
Proof.
  induction n as [|n IH]; intros g; [done|].
  rewrite !drawn_paths_S. cbv zeta.
  by rewrite !drawn_prices_with_fill, !IH.
Qed.

(** X1: for [num_dt >= 0] the array that [get_ls_price] fills in place is
    the list of paths drawn one after the other, each the spot followed by
    [num_dt] prices of which each is drawn from the moments of the one
    before; the generator is left in the same state. *)
Theorem path_ensemble_is_drawn_paths {F : Type} `{!FloatOps F} {RNG : Type}
    (lib : Library F RNG) (self : AmericanPricing F) (num_dt num_paths : Z)
    (g : RNG) :
  (0 <= num_dt)%Z ->
  path_ensemble lib self num_dt num_paths g =
    drawn_paths lib self (Z.to_nat num_dt) (expiry self /! of_int num_dt)
      (Z.to_nat num_paths) g.
Proof. apply path_ensemble_drawn. Qed.

Lemma path_ensemble_is_drawn_paths_witness :
  (0 <= 2)%Z /\
  path_ensemble demo_library script_option 2 1 [1%R; 1%R] =
    drawn_paths demo_library script_option 2 (3 / 2)%R 1 [1%R; 1%R].
Proof.
  split; [lia|].
  exact (path_ensemble_is_drawn_paths demo_library script_option 2 1
           [1%R; 1%R] ltac:(lia)).
Defined.

(** X2: the value [get_ls_price] returns and the state it leaves the
    generator in do not depend on what [np.empty] finds in memory: every
    entry of the array is written before it is read. *)
Theorem uninitialised_memory_is_never_read {F : Type} `{!FloatOps F}
    {RNG : Type} (lib : Library F RNG) (self : AmericanPricing F) (x : F)
    (feature_funcs : list (F -> list F -> F)) (num_dt num_paths : Z)
    (g : RNG) :
  get_ls_price (with_fill lib x) self num_dt num_paths feature_funcs g =
    get_ls_price lib self num_dt num_paths feature_funcs g.
Proof.
  unfold get_ls_price.
  destruct (decide (num_dt = 0)%Z); [done|].
  destruct (decide (num_paths < 0 \/ num_dt + 1 < 0)%Z); [done|].
  destruct (decide (num_dt + 1 = 0)%Z); [done|].
  rewrite (bind_run (path_ensemble (with_fill lib x) self num_dt num_paths)).
  rewrite (bind_run (path_ensemble lib self num_dt num_paths)).
  rewrite !path_ensemble_drawn by lia.
  by rewrite drawn_paths_with_fill.
Qed.

(** ** The exercise decision and the ends of the backward loop *)

Section Decision.
Context {F : Type} `{!FloatOps F} {RNG : Type}.
Variable lib : Library F RNG.
Variable self : AmericanPricing F.

(** Along pairs [(i, ind)] whose path indices differ from each other, the
    entry of a listed path is decided once, at its own pair. *)
Lemma exercise_fold_decision (payoff_ estimate : list F)
    (l : list (nat * nat)) (k ind : nat) :
  forall (cashflow : list F) (c : F),
  NoDup l.*2 ->
  (k, ind) ∈ l ->
  cashflow !! ind = Some c ->
  foldl (fun cashflow '(i, ind) =>
           if payoff_ !!! ind >! estimate !!! i
           then <[ind := payoff_ !!! ind]> cashflow
           else cashflow) cashflow l !! ind =
    Some (if payoff_ !!! ind >! estimate !!! k then payoff_ !!! ind else c).
Proof.
  induction l as [|[i' ind'] l IH]; intros cashflow c Hnd Hin Hc.
  { by apply elem_of_nil in Hin. }
  apply NoDup_cons in Hnd as [Hnotin Hnd]. simpl in Hnotin.
  apply elem_of_cons in Hin as [[= <- <-]|Hin]; simpl.
  - assert (Hfr : forall cf : list F,
              foldl (fun cashflow '(i, ind) =>
                       if payoff_ !!! ind >! estimate !!! i
                       then <[ind := payoff_ !!! ind]> cashflow
                       else cashflow) cf l !! ind = cf !! ind).
    { clear -Hnotin. induction l as [|[i0 ind0] l IHl]; intros cf; [done|].
      simpl. rewrite IHl.
      - destruct (_ >! _); [|done]. apply list_lookup_insert_ne.
        intros ->. apply Hnotin. simpl. left.
      - intros Hin. apply Hnotin. simpl. by right. }
    rewrite Hfr. destruct (_ >! _); [|done].
    apply list_lookup_insert_eq. by eapply lookup_lt_Some.
  - assert (Hne : ind' <> ind).
    { intros ->. apply Hnotin. apply list_elem_of_fmap. by exists (k, ind). }
    apply IH; [done..|].
    destruct (payoff_ !!! ind' >! estimate !!! i'); [|exact Hc].
    by rewrite list_lookup_insert_ne.
Qed.

Lemma exercise_decision (payoff_ estimate : list F) (indices : list nat)
    (cashflow : list F) (k ind : nat) (c : F) :
  NoDup indices ->
  indices !! k = Some ind ->
  cashflow !! ind = Some c ->
  exercise payoff_ estimate indices cashflow !! ind =
    Some (if payoff_ !!! ind >! estimate !!! k then payoff_ !!! ind else c).
Proof.
  intros Hnd Hk Hc. unfold exercise. apply exercise_fold_decision; [|
    |done].
  - rewrite snd_zip; [done|]. by rewrite length_seq.
  - apply list_elem_of_lookup. exists k. apply lookup_zip_Some.
    split; [|done]. apply lookup_seq. split; [done|].
    by eapply lookup_lt_Some.
Qed.

Lemma in_the_money_NoDup (num_paths : nat) (payoff_ : list F) :
  NoDup (in_the_money num_paths payoff_).
Proof. unfold in_the_money, range. apply NoDup_filter, NoDup_seq. Qed.

Lemma ls_step_decision (num_paths : nat) (dt : F) (paths : list (list F))
    (feature_funcs : list (F -> list F -> F)) (t : nat)
    (cashflow : list F) (k ind : nat) (c : F) :
  let payoff_ := payoff_at self num_paths paths t in
  let indices := in_the_money num_paths payoff_ in
  let discounted := (fun c => c *! disc self dt t) <$> cashflow in
  let x_vals :=
    (fun i => (fun f => f (of_int (Z.of_nat t)) (take (t + 1) (paths !!! i)))
                <$> feature_funcs) <$> indices in
  let y_vals := (fun i => discounted !!! i) <$> indices in
  let estimate := np_dot lib x_vals (np_lstsq lib x_vals y_vals) in
  indices !! k = Some ind ->
  cashflow !! ind = Some c ->
  ls_step lib self num_paths dt paths feature_funcs t cashflow !! ind =
    Some (if payoff_ !!! ind >! estimate !!! k
          then payoff_ !!! ind
          else c *! disc self dt t).
Proof.
  intros payoff_ indices discounted x_vals y_vals estimate Hk Hc.
  unfold ls_step. fold payoff_ indices discounted x_vals y_vals estimate.
  destruct (decide _) as [_|Hlen].
  - apply exercise_decision; [apply in_the_money_NoDup|done|].
    unfold discounted. by rewrite list_lookup_fmap, Hc.
  - exfalso. apply Hlen. apply lookup_lt_Some in Hk. lia.
Qed.

(** Without paths every step keeps the empty vector. *)
Lemma backward_induction_no_paths (num_dt : nat) (dt : F)
    (paths : list (list F)) (feature_funcs : list (F -> list F -> F)) :
  backward_induction lib self num_dt 0 dt paths feature_funcs = [].
Proof.
  unfold backward_induction.
  change (terminal_cashflow self 0 paths) with (@nil F).
  induction (range_down num_dt) as [|t ts IH]; [done|]. simpl. exact IH.
Qed.

End Decision.

(** X3: at a step of the backward loop, the path at position [k] of the list
    of paths in the money ends the step with its immediate payoff if that
    payoff is greater than entry [k] of the regression estimate, and with
    its cash flow multiplied by the discount factor otherwise. *)
Theorem in_the_money_decision {F : Type} `{!FloatOps F} {RNG : Type}
    (lib : Library F RNG) (self : AmericanPricing F) (num_paths : nat)
    (dt : F) (paths : list (list F))
    (feature_funcs : list (F -> list F -> F)) (t : nat)
    (cashflow : list F) (k ind : nat) (c : F) :
  let payoff_ := payoff_at self num_paths paths t in
  let indices := in_the_money num_paths payoff_ in
  let discounted := (fun c => c *! disc self dt t) <$> cashflow in
  let x_vals :=
    (fun i => (fun f => f (of_int (Z.of_nat t)) (take (t + 1) (paths !!! i)))
                <$> feature_funcs) <$> indices in
  let y_vals := (fun i => discounted !!! i) <$> indices in
  let estimate := np_dot lib x_vals (np_lstsq lib x_vals y_vals) in
  indices !! k = Some ind ->
  cashflow !! ind = Some c ->
  ls_step lib self num_paths dt paths feature_funcs t cashflow !! ind =
    Some (if payoff_ !!! ind >! estimate !!! k
          then payoff_ !!! ind
          else c *! disc self dt t).
Proof. apply ls_step_decision. Qed.

(** X4: the cash-flow vector at the end of the backward loop has one entry
    per path, whatever the paths, the basis and the regression are. *)
Theorem cashflow_has_one_entry_per_path {F : Type} `{!FloatOps F}
    {RNG : Type} (lib : Library F RNG) (self : AmericanPricing F)
    (num_dt num_paths : nat) (dt : F) (paths : list (list F))
    (feature_funcs : list (F -> list F -> F)) :
  length (backward_induction lib self num_dt num_paths dt paths feature_funcs)
    = num_paths.
Proof. apply backward_induction_length. Qed.

(** X8: with a single time step the backward loop has no step: no regression
    is run, the basis is not used, and the price is
    [max(payoff(0, [spot]), average(max(payoff(expiry, path), 0.) *
    exp(-ir(dt))))]. *)
Theorem single_step_price {F : Type} `{!FloatOps F} {RNG : Type}
    (lib : Library F RNG) (self : AmericanPricing F)
    (feature_funcs : list (F -> list F -> F)) (num_paths : Z) (g : RNG) :
  (0 <= num_paths)%Z ->
  let dt := expiry self /! of_int 1 in
  let sim := path_ensemble lib self 1 num_paths g in
  get_ls_price lib self 1 num_paths feature_funcs g =
    (Ok (py_max (payoff self (of_int 0) [spot_price self])
           (np_average lib
              ((fun c => c *! fexp (fneg (ir self dt))) <$>
               ((fun i => py_max (payoff self (expiry self) (sim.1 !!! i))
                            fzero) <$> range (Z.to_nat num_paths))))),
     sim.2).
Proof.
  intros Hp. cbv zeta. by rewrite get_ls_price_run by lia.
Qed.

Lemma single_step_price_witness :
  (0 <= 1)%Z /\
  get_ls_price demo_library script_option 1 1 demo_features [1%R] =
    (Ok (py_max (payoff script_option 0%R [80%R])
           (Raverage
              ((fun c => c * exp (- ir script_option (3 / 1)))%R <$>
               ((fun i =>
                   py_max (payoff script_option 3%R
                             ((path_ensemble demo_library script_option 1 1
                                 [1%R]).1 !!! i)) 0%R) <$> range 1)))),
     (path_ensemble demo_library script_option 1 1 [1%R]).2).
Proof.
  split; [lia|].
  exact (single_step_price demo_library script_option demo_features 1 [1%R]
           ltac:(lia)).
Defined.

(** X14: with zero paths and at least one time step nothing is drawn and the
    value returned is [max(payoff(0, [spot]), np.average([]))]: the average
    of an empty vector is not guarded. *)
Theorem zero_paths_price {F : Type} `{!FloatOps F} {RNG : Type}
    (lib : Library F RNG) (self : AmericanPricing F)
    (feature_funcs : list (F -> list F -> F)) (num_dt : Z) (g : RNG) :
  (1 <= num_dt)%Z ->
  get_ls_price lib self num_dt 0 feature_funcs g =
    (Ok (py_max (payoff self (of_int 0) [spot_price self])
           (np_average lib [])), g).
Proof.
  intros Hdt. rewrite get_ls_price_run by lia. cbv zeta.
  change (Z.to_nat 0) with 0.
  by rewrite backward_induction_no_paths.
Qed.

Lemma zero_paths_price_witness :
  (1 <= 2)%Z /\
  get_ls_price demo_library script_option 2 0 demo_features [1%R] =
    (Ok (py_max (payoff script_option 0%R [80%R]) (Raverage [])), [1%R]).
Proof.
  split; [lia|].
  exact (zero_paths_price demo_library script_option demo_features 2 [1%R]
           ltac:(lia)).
Defined.

Lemma itm_paths_in_the_money :
  in_the_money 1 (payoff_at script_option 1 itm_paths 1) = [0].
Proof.
  unfold in_the_money, range. simpl.
  rewrite filter_cons_True; [done|].
  apply R_fgt_true. simpl. lra.
Qed.

Lemma in_the_money_decision_witness :
  in_the_money 1 (payoff_at script_option 1 itm_paths 1) !! 0 = Some 0 /\
  [5%R] !! 0 = Some 5%R /\
  ls_step demo_library script_option 1 (3 / 2)%R itm_paths demo_features 1
    [5%R] !! 0 =
    Some
      (if payoff_at script_option 1 itm_paths 1 !!! 0 >!
          np_dot demo_library
            ((fun i =>
                (fun f => f (of_int (Z.of_nat 1))
                            (take (1 + 1) (itm_paths !!! i)))
                  <$> demo_features)
               <$> in_the_money 1 (payoff_at script_option 1 itm_paths 1))
            (np_lstsq demo_library
               ((fun i =>
                   (fun f => f (of_int (Z.of_nat 1))
                               (take (1 + 1) (itm_paths !!! i)))
                     <$> demo_features)
                  <$> in_the_money 1 (payoff_at script_option 1 itm_paths 1))
               ((fun i =>
                   ((fun c => c *! disc script_option (3 / 2)%R 1)
                      <$> [5%R]) !!! i)
                  <$> in_the_money 1 (payoff_at script_option 1 itm_paths 1)))
          !!! 0
       then payoff_at script_option 1 itm_paths 1 !!! 0
       else 5%R *! disc script_option (3 / 2)%R 1).
Proof.
  assert (H : in_the_money 1 (payoff_at script_option 1 itm_paths 1) !! 0
              = Some 0) by (by rewrite itm_paths_in_the_money).
  split; [exact H|]. split; [done|].
  exact (in_the_money_decision demo_library script_option 1 (3 / 2)%R
           itm_paths demo_features 1 [5%R] 0 0 5%R H eq_refl).
Defined.

(** ** More bounds over the reals *)

Lemma exp_le_1 (x : R) : (x <= 0)%R -> (exp x <= 1)%R.
Proof.
  intros [Hx| ->].
  - left. rewrite <- exp_0. by apply exp_increasing.
  - rewrite exp_0. lra.
Qed.

Lemma Rsum_le (B : R) (l : list R) :
  Forall (fun c => c <= B)%R l -> (Rsum l <= INR (length l) * B)%R.
Proof.
  unfold Rsum. induction 1 as [|x l Hx _ IH].
  - simpl. lra.
  - rewrite length_cons, S_INR. simpl. lra.
Qed.

Lemma Raverage_le (B : R) (l : list R) :
  (0 <= B)%R -> Forall (fun c => c <= B)%R l -> (Raverage l <= B)%R.
Proof.
  intros HB Hl. unfold Raverage. destruct l as [|x l].
  - simpl. unfold Rdiv. rewrite Rmult_0_l. done.
  - pose proof (Rsum_le B (x :: l) Hl) as Hs.
    assert (Hn : (0 < INR (length (x :: l)))%R) by (apply lt_0_INR; simpl; lia).
    apply (Rmult_le_reg_r (INR (length (x :: l)))); [done|].
    unfold Rdiv. rewrite Rmult_assoc, Rinv_l by lra. lra.
Qed.

Lemma Raverage_zeros (l : list R) :
  Forall (fun c => c = 0%R) l -> Raverage l = 0%R.
Proof.
  intros Hl. unfold Raverage.
  assert (Hs : Rsum l = 0%R).
  { unfold Rsum. induction Hl as [|x l -> _ IH]; simpl; [done|]. lra. }
  rewrite Hs. unfold Rdiv. apply Rmult_0_l.
Qed.

Section MoreBounds.
Context {RNG : Type}.
Variable lib : Library R RNG.
Variable self : AmericanPricing R.

(** With payoffs that are never positive every cash flow is 0 at every
    step. *)
Lemma backward_induction_zeros (num_dt num_paths : nat) (dt : R)
    (paths : list (list R)) (feature_funcs : list (R -> list R -> R)) :
  (forall t h, payoff self t h <= 0)%R ->
  Forall (fun c => c = 0%R)
    (backward_induction lib self num_dt num_paths dt paths feature_funcs).
Proof.
  intros Hp. unfold backward_induction.
  assert (H0 : Forall (fun c => c = 0%R)
                 (terminal_cashflow self num_paths paths)).
  { unfold terminal_cashflow. apply Forall_fmap, Forall_forall. intros i _.
    simpl. rewrite R_py_max. apply Rmax_right. apply Hp. }
  revert H0. generalize (terminal_cashflow self num_paths paths).
  induction (range_down num_dt) as [|t ts IH]; intros cashflow Hc; simpl;
    [done|].
  apply IH. rewrite ls_step_none_in_the_money.
  - apply Forall_fmap. eapply Forall_impl; [exact Hc|].
    intros c ->. simpl. apply Rmult_0_l.
  - intros i _. apply R_fgt_false. apply Hp.
Qed.

(** With payoffs of at most [B] and discount factors of at most 1 every
    cash flow stays between 0 and [B]. *)
Lemma backward_induction_bounded (B : R) (num_dt num_paths : nat) (dt : R)
    (paths : list (list R)) (feature_funcs : list (R -> list R -> R)) :
  (0 <= B)%R ->
  (forall t h, payoff self t h <= B)%R ->
  (forall t, disc self dt t <= 1)%R ->
  Forall (fun c => 0 <= c <= B)%R
    (backward_induction lib self num_dt num_paths dt paths feature_funcs).
Proof.
  intros HB Hp Hd. unfold backward_induction.
  assert (H0 : Forall (fun c => 0 <= c <= B)%R
                 (terminal_cashflow self num_paths paths)).
  { unfold terminal_cashflow. apply Forall_fmap, Forall_forall. intros i _.
    simpl. rewrite R_py_max. split; [apply Rmax_r|].
    apply Rmax_lub; [apply Hp|done]. }
  revert H0. generalize (terminal_cashflow self num_paths paths).
  induction (range_down num_dt) as [|t ts IH]; intros cashflow Hc; simpl;
    [done|].
  apply IH. unfold ls_step.
  assert (Hdisc : Forall (fun c => 0 <= c <= B)%R
                    ((fun c => c *! disc self dt t) <$> cashflow)).
  { apply Forall_fmap. eapply Forall_impl; [exact Hc|]. intros c Hc0.
    specialize (Hd t).
    assert (0 < disc self dt t)%R by (unfold disc; simpl; apply exp_pos).
    change (0 <= c * disc self dt t <= B)%R.
    generalize dependent (disc self dt t). intros d Hd1 Hd0. nra. }
  destruct (decide _); [|done].
  apply exercise_Forall; [|done]. apply Forall_forall.
  intros ind [Hitm Hi]%elem_of_in_the_money.
  apply R_fgt_true in Hitm. unfold fzero in Hitm. simpl in Hitm.
  split; [lra|]. rewrite payoff_at_lookup by done. apply Hp.
Qed.

End MoreBounds.

(** X5: over the reals no entry of the cash-flow vector is negative at the
    end of the backward loop, whatever the payoff, the rate curve and the
    regression are. *)
Theorem cashflow_is_never_negative {RNG : Type} (lib : Library R RNG)
    (self : AmericanPricing R) (num_dt num_paths : nat) (dt : R)
    (paths : list (list R)) (feature_funcs : list (R -> list R -> R)) :
  Forall (Rle 0)
    (backward_induction lib self num_dt num_paths dt paths feature_funcs).
Proof. apply backward_induction_nonneg. Qed.

(** X6: over the reals, an option whose payoff is never positive is priced
    at 0, for positive [num_dt] and [num_paths] and any draws. *)
Theorem worthless_option_price {RNG : Type} (lib : Library R RNG)
    (self : AmericanPricing R) (feature_funcs : list (R -> list R -> R))
    (num_dt num_paths : Z) (g : RNG) :
  np_average lib = Raverage ->
  (0 < num_dt)%Z ->
  (0 < num_paths)%Z ->
  (forall t h, payoff self t h <= 0)%R ->
  exists g',
    get_ls_price lib self num_dt num_paths feature_funcs g = (Ok 0%R, g').
Proof.
  intros Havg Hdt Hn Hp. eexists.
  rewrite get_ls_price_run by lia. cbv zeta. f_equal. f_equal.
  unfold final_price. rewrite R_py_max, Havg, Raverage_zeros.
  - apply Rmax_right, Hp.
  - apply Forall_fmap.
    eapply Forall_impl; [by apply backward_induction_zeros|].
    intros c ->. simpl. apply Rmult_0_l.
Qed.

Lemma worthless_option_price_witness :
  np_average demo_library = Raverage /\
  (0 < 2)%Z /\ (0 < 1)%Z /\
  (forall t h, payoff worthless_option t h <= 0)%R /\
  exists g',
    get_ls_price demo_library worthless_option 2 1 demo_features
      [1%R; 1%R] = (Ok 0%R, g').
Proof.
  assert (H : forall t h, (payoff worthless_option t h <= 0)%R).
  { intros t h. simpl. apply Rmin_r. }
  split; [done|]. split; [lia|]. split; [lia|]. split; [exact H|].
  exact (worthless_option_price demo_library worthless_option demo_features
           2 1 [1%R; 1%R] eq_refl ltac:(lia) ltac:(lia) H).
Defined.

(** X7: over the reals, if the payoff never exceeds [B >= 0], the expiry is
    not negative and the integrated rate is non-negative and non-decreasing,
    the price is at most [B]. *)
Theorem price_upper_bound {RNG : Type} (lib : Library R RNG)
    (self : AmericanPricing R) (feature_funcs : list (R -> list R -> R))
    (num_dt num_paths : Z) (g : RNG) (B : R) :
  np_average lib = Raverage ->
  (0 < num_dt)%Z ->
  (0 < num_paths)%Z ->
  (0 <= expiry self)%R ->
  (forall s t, s <= t -> ir self s <= ir self t)%R ->
  (forall t, 0 <= t -> 0 <= ir self t)%R ->
  (0 <= B)%R ->
  (forall t h, payoff self t h <= B)%R ->
  exists price g',
    get_ls_price lib self num_dt num_paths feature_funcs g = (Ok price, g') /\
    (price <= B)%R.
Proof.
  intros Havg Hdt Hn He Hmono Hpos HB Hp. eexists _, _. split.
  - by apply get_ls_price_run; lia.
  - assert (Hdt0 : (0 <= expiry self /! of_int num_dt)%R).
    { simpl. apply Rle_mult_inv_pos; [done|]. by apply IZR_lt. }
    unfold final_price. rewrite R_py_max, Havg.
    apply Rmax_lub; [apply Hp|].
    apply Raverage_le; [done|]. apply Forall_fmap.
    eapply Forall_impl.
    + apply (backward_induction_bounded lib self B); [done..|].
      intros t. unfold disc. simpl. apply exp_le_1.
      specialize (Hmono (IZR (Z.of_nat t))
                    (IZR (Z.of_nat t) + expiry self / IZR num_dt)%R).
      simpl in Hdt0. lra.
    + intros c [Hc0 HcB]. simpl. simpl in Hdt0.
      specialize (Hpos _ Hdt0).
      match goal with |- context [exp ?x] =>
        pose proof (exp_pos x) as He0;
        pose proof (exp_le_1 x ltac:(lra)) as He1;
        generalize dependent (exp x) end.
      intros e He0 He1. nra.
Qed.

Lemma price_upper_bound_witness :
  np_average demo_library = Raverage /\
  (0 < 2)%Z /\ (0 < 1)%Z /\
  (0 <= expiry capped_option)%R /\
  (forall s t, s <= t -> ir capped_option s <= ir capped_option t)%R /\
  (forall t, 0 <= t -> 0 <= ir capped_option t)%R /\
  (0 <= 10)%R /\
  (forall t h, payoff capped_option t h <= 10)%R /\
  exists price g',
    get_ls_price demo_library capped_option 2 1 demo_features [1%R; 1%R] =
      (Ok price, g') /\
    (price <= 10)%R.
Proof.
  assert (He : (0 <= expiry capped_option)%R) by (simpl; lra).
  assert (Hm : forall s t,
            (s <= t -> ir capped_option s <= ir capped_option t)%R)
    by (intros s t Hst; simpl; lra).
  assert (Hi : forall t, (0 <= t -> 0 <= ir capped_option t)%R)
    by (intros t Ht; simpl; lra).
  assert (HB : (0 <= 10)%R) by lra.
  assert (Hp : forall t h, (payoff capped_option t h <= 10)%R)
    by (intros t h; simpl; apply Rmin_r).
  split; [done|]. split; [lia|]. split; [lia|]. split; [exact He|].
  split; [exact Hm|]. split; [exact Hi|]. split; [exact HB|].
  split; [exact Hp|].
  exact (price_upper_bound demo_library capped_option demo_features 2 1
           [1%R; 1%R] 10%R eq_refl ltac:(lia) ltac:(lia) He Hm Hi HB Hp).
Defined.

(** ** Episodes *)

Section Episodes.
Context {F : Type} `{!FloatOps F} {RNG : Type}.
Variable lib : Library F RNG.
Variable self : AmericanPricing F.

(** One transition from a live state: it does not raise, the next state is
    live with a history one longer that starts with the old one, and the
    arrays of the store are kept. *)
Lemma sr_func_live (dt : F) (s : StateType F) (a : ActionType)
    (w : World F RNG) (h : list F) :
  live_state w s h ->
  exists s' r w' x,
    sr_func lib self dt s a w = (Ok (s', r), w') /\
    live_state w' s' (h ++ [x]) /\
    (a = false -> r = fzero) /\
    s'.1 = (if a then expiry self else s.1) +! dt /\
    (forall l, is_Some (heap w !! l) -> heap w' !! l = heap w !! l).
Proof.
  intros [Hh Hne]. destruct s as [t arr]. simpl in Hh.
  destruct (last_is_Some h Hne) as [x Hx].
  unfold sr_func.
  rewrite (state_reward_gen_run lib self t arr a dt w h x Hh Hx).
  eexists _, _, _, _. split; [done|]. simpl. split; [|split; [|split]].
  - split; [apply lookup_insert_eq|]. by destruct h.
  - by intros ->.
  - done.
  - intros l [v Hv]. apply lookup_insert_ne. intros <-.
    pose proof (is_fresh (dom (heap w))) as Hf.
    apply not_elem_of_dom in Hf. congruence.
Qed.

Lemma run_actions_live (dt : F) (actions : list ActionType) :
  forall (s : StateType F) (w : World F RNG) (h : list F),
  live_state w s h ->
  exists s' rs w' h',
    run_actions (sr_func lib self dt) actions s w = (Ok (s', rs), w') /\
    live_state w' s' h' /\
    length h' = length h + length actions /\
    take (length h) h' = h /\
    Forall2 (fun a r => a = false -> r = fzero) actions rs /\
    (forall l, is_Some (heap w !! l) -> heap w' !! l = heap w !! l).
Proof.
  induction actions as [|a actions IH]; intros s w h Hlive.
  - exists s, [], w, h. simpl. split; [done|]. split; [done|].
    split; [lia|]. split; [apply firstn_all|]. split; [constructor|done].
  - destruct (sr_func_live dt s a w h Hlive)
      as (s1 & r & w1 & x & Hstep & Hlive1 & Hr & _ & Hkeep1).
    destruct (IH s1 w1 (h ++ [x]) Hlive1)
      as (s' & rs & w' & h' & Hrun & Hlive' & Hlen & Htake & Hrs & Hkeep).
    exists s', (r :: rs), w', h'. simpl. rewrite Hstep, Hrun.
    split; [done|]. split; [done|]. rewrite length_app in Hlen. simpl in Hlen.
    split; [lia|]. split; [|split; [by constructor|]].
    + rewrite length_app in Htake. simpl in Htake.
      apply (f_equal (take (length h))) in Htake.
      rewrite take_take, take_app_length in Htake.
      by replace (length h `min` (length h + 1)) with (length h) in Htake
        by lia.
    + intros l Hl. rewrite Hkeep; [by apply Hkeep1|].
      rewrite Hkeep1 by done. done.
Qed.

(** The initial state is live, with the spot as its history. *)
Lemma init_s_live (w : World F RNG) :
  live_state (init_s self w).2 (init_s self w).1 [spot_price self] /\
  (init_s self w).1.1 = fzero /\
  (forall l, is_Some (heap w !! l) ->
             heap (init_s self w).2 !! l = heap w !! l).
Proof.
  unfold init_s, np_array. simpl. split; [|split; [done|]].
  - split; [apply lookup_insert_eq|done].
  - intros l [v Hv]. apply lookup_insert_ne. intros <-.
    pose proof (is_fresh (dom (heap w))) as Hf.
    apply not_elem_of_dom in Hf. congruence.
Qed.

End Episodes.

(** X11: from the initial state, transitions never raise, whatever the
    actions and the draws: after [k] of them the history of the state is an
    array of [k + 1] prices that starts with the spot, there is one reward
    per action, and every array the store held before is unchanged. *)
Theorem episode_never_raises {F : Type} `{!FloatOps F} {RNG : Type}
    (lib : Library F RNG) (self : AmericanPricing F) (dt : F)
    (actions : list ActionType) (w : World F RNG) :
  exists s rs w' h,
    run_actions (sr_func lib self dt) actions (init_s self w).1
      (init_s self w).2 = (Ok (s, rs), w') /\
    heap w' !! s.2 = Some h /\
    length h = 1 + length actions /\
    head h = Some (spot_price self) /\
    length rs = length actions /\
    (forall l, is_Some (heap w !! l) -> heap w' !! l = heap w !! l).
Proof.
  destruct (init_s_live self w) as (Hlive & _ & Hkeep0).
  destruct (run_actions_live lib self dt actions _ _ _ Hlive)
    as (s & rs & w' & h & Hrun & [Hh _] & Hlen & Htake & Hrs & Hkeep).
  exists s, rs, w', h. split; [done|]. split; [done|]. simpl in Hlen.
  split; [lia|]. split; [|split].
  - simpl in Htake. destruct h as [|x h]; [done|]. by injection Htake as ->.
  - symmetry. by eapply Forall2_length.
  - intros l Hl. rewrite Hkeep; [by apply Hkeep0|].
    rewrite Hkeep0 by done. done.
Qed.

(** X12: along transitions from a state with a non-empty history, every
    action continue is rewarded with [0.]. *)
Theorem continue_is_never_rewarded {F : Type} `{!FloatOps F} {RNG : Type}
    (lib : Library F RNG) (self : AmericanPricing F) (dt : F)
    (actions : list ActionType) (s : StateType F) (w : World F RNG)
    (h : list F) :
  heap w !! s.2 = Some h ->
  h <> [] ->
  exists s' rs w',
    run_actions (sr_func lib self dt) actions s w = (Ok (s', rs), w') /\
    Forall2 (fun a r => a = false -> r = fzero) actions rs.
Proof.
  intros Hh Hne.
  destruct (run_actions_live lib self dt actions s w h (conj Hh Hne))
    as (s' & rs & w' & h' & Hrun & _ & _ & _ & Hrs & _).
  by exists s', rs, w'.
Qed.

Lemma continue_is_never_rewarded_witness :
  heap (demo_world [1%R]) !! (demo_state [1%R]).2 = Some [80%R] /\
  [80%R] <> [] /\
  exists s' rs w',
    run_actions (sr_func demo_library script_option (1 / 10)%R)
      [false; true] (demo_state [1%R]) (demo_world [1%R]) =
      (Ok (s', rs), w') /\
    Forall2 (fun a r => a = false -> r = fzero) [false; true] rs.
Proof.
  split; [apply demo_heap|]. split; [done|].
  exact (continue_is_never_rewarded demo_library script_option (1 / 10)%R
           [false; true] (demo_state [1%R]) (demo_world [1%R]) [80%R]
           (demo_heap [1%R]) ltac:(done)).
Defined.

(** X10: over the reals, for a positive expiry and a positive [num_dt], in
    the MDP that [get_tdl_obj] builds an exercise ends the episode: from any
    state with a non-empty history the transition for the action exercise
    returns a state for which the terminal test holds. *)
Theorem exercise_ends_the_episode {RNG : Type} (lib : Library R RNG)
    (self : AmericanPricing R)
    (choice : list ActionType -> M (World R RNG) ActionType) (num_dt : Z)
    (s : StateType R) (w : World R RNG) (h : list R) :
  (0 < expiry self)%R ->
  (0 < num_dt)%Z ->
  heap w !! s.2 = Some h ->
  h <> [] ->
  exists mdp s' r w',
    get_tdl_obj lib self choice num_dt = Ok (mdp, (num_dt + 1)%Z) /\
    state_reward_gen_func mdp s true w = (Ok (s', r), w') /\
    terminal_state_func mdp s' = true.
Proof.
  intros He Hdt Hh Hne. unfold get_tdl_obj.
  destruct (decide (num_dt = 0)%Z); [lia|].
  destruct (sr_func_live lib self (expiry self /! of_int num_dt) s true w h
              (conj Hh Hne)) as (s' & r & w' & x & Hstep & _ & _ & Ht & _).
  eexists _, s', r, w'. split; [done|]. simpl. split; [done|].
  unfold terminal_state. apply R_fgt_true. rewrite Ht. simpl.
  assert (0 < expiry self / IZR num_dt)%R.
  { apply Rdiv_lt_0_compat; [done|]. by apply IZR_lt. }
  lra.
Qed.

Lemma exercise_ends_the_episode_witness :
  (0 < expiry script_option)%R /\
  (0 < 2)%Z /\
  heap (demo_world [1%R]) !! (demo_state [1%R]).2 = Some [80%R] /\
  [80%R] <> [] /\
  exists mdp s' r w',
    get_tdl_obj demo_library script_option demo_choice 2 = Ok (mdp, 3%Z) /\
    state_reward_gen_func mdp (demo_state [1%R]) true (demo_world [1%R]) =
      (Ok (s', r), w') /\
    terminal_state_func mdp s' = true.
Proof.
  assert (He : (0 < expiry script_option)%R) by (simpl; lra).
  split; [exact He|]. split; [lia|]. split; [apply demo_heap|].
  split; [done|].
  exact (exercise_ends_the_episode demo_library script_option demo_choice 2
           (demo_state [1%R]) (demo_world [1%R]) [80%R] He ltac:(lia)
           (demo_heap [1%R]) ltac:(done)).
Defined.

(** ** No exercise before the expiry *)

Lemma exp_pow_INR (x : R) (n : nat) : (exp x ^ n = exp (INR n * x))%R.
Proof.
  induction n as [|n IH].
  - simpl. rewrite Rmult_0_l, exp_0. done.
  - rewrite S_INR. simpl pow. rewrite IH, <- exp_plus. f_equal. lra.
Qed.

Lemma Rsum_scale (k : R) (l : list R) :
  Rsum ((fun c => c * k)%R <$> l) = (Rsum l * k)%R.
Proof.
  unfold Rsum. induction l as [|x l IH]; simpl; [lra|].
  unfold fmap in IH. rewrite IH. lra.
Qed.

Lemma Raverage_scale (k : R) (l : list R) :
  Raverage ((fun c => c * k)%R <$> l) = (Raverage l * k)%R.
Proof.
  unfold Raverage. rewrite Rsum_scale, length_fmap. unfold Rdiv. lra.
Qed.

Lemma elem_of_range_down (n t : nat) : t ∈ range_down n -> 1 <= t < n.
Proof.
  unfold range_down.
  rewrite list_elem_of_In, <- in_rev, <- list_elem_of_In, elem_of_seq. lia.
Qed.

Section European.
Context {RNG : Type}.
Variable lib : Library R RNG.
Variable self : AmericanPricing R.
Variable r : R.
Hypothesis flat : forall t, ir self t = (r * t)%R.

(** With a flat rate the discount factor of a step is the same at every
    step, although the code passes the step index where the rate curve
    expects a time. *)
Lemma disc_flat (dt : R) (t : nat) : disc self dt t = exp (- (r * dt)).
Proof. unfold disc. simpl. rewrite !flat. f_equal. lra. Qed.

(** Steps at which no payoff is positive only discount. *)
Lemma steps_only_discount (num_paths : nat) (dt : R)
    (paths : list (list R)) (feature_funcs : list (R -> list R -> R))
    (ts : list nat) :
  (forall t h, t ∈ ts -> payoff self (IZR (Z.of_nat t)) h <= 0)%R ->
  forall cashflow,
  foldl (fun cashflow t =>
           ls_step lib self num_paths dt paths feature_funcs t cashflow)
    cashflow ts =
  (fun c => c * exp (- (r * dt)) ^ length ts)%R <$> cashflow.
Proof.
  induction ts as [|t ts IH]; intros Hp cashflow.
  - simpl. rewrite <- (list_fmap_id cashflow) at 1.
    apply list_fmap_ext. intros _ c _. simpl. lra.
  - simpl foldl. rewrite IH by (intros t' h Ht'; apply Hp; by right).
    rewrite ls_step_none_in_the_money.
    + rewrite <- list_fmap_compose. apply list_fmap_ext. intros _ c _.
      unfold compose. rewrite disc_flat. simpl. lra.
    + intros i _. apply R_fgt_false. apply Hp. left.
Qed.

End European.

(** X15: over the reals, with a flat rate [ir(t) = r * t], if the payoff is
    not positive at the steps [1 .. num_dt - 1] the price is the European
    one: [max(payoff(0, [spot]), exp(-r * expiry) * average(max(payoff(expiry,
    path), 0.)))]. *)
Theorem european_price {RNG : Type} (lib : Library R RNG)
    (self : AmericanPricing R) (feature_funcs : list (R -> list R -> R))
    (num_dt num_paths : Z) (g : RNG) (r : R) :
  np_average lib = Raverage ->
  (0 < num_dt)%Z ->
  (0 < num_paths)%Z ->
  (forall t, ir self t = r * t)%R ->
  (forall (t : Z) h, (1 <= t < num_dt)%Z -> payoff self (IZR t) h <= 0)%R ->
  let sim := path_ensemble lib self num_dt num_paths g in
  get_ls_price lib self num_dt num_paths feature_funcs g =
    (Ok (Rmax (payoff self 0%R [spot_price self])
           (exp (- (r * expiry self)) *
            Raverage (terminal_cashflow self (Z.to_nat num_paths) sim.1))%R),
     sim.2).
Proof.
  intros Havg Hdt Hn Hflat Hp sim.
  rewrite get_ls_price_run by lia. cbv zeta. fold sim. f_equal. f_equal.
  unfold final_price, backward_induction.
  rewrite (steps_only_discount lib self r Hflat).
  - rewrite R_py_max, Havg. f_equal.
    rewrite <- list_fmap_compose.
    rewrite (Rmult_comm (exp _)), <- Raverage_scale. f_equal.
    apply list_fmap_ext. intros _ c _. unfold compose. simpl.
    rewrite Hflat, exp_pow_INR.
    rewrite Rmult_assoc, <- exp_plus.
    assert (Hlen : length (range_down (Z.to_nat num_dt))
                   = Z.to_nat num_dt - 1).
    { unfold range_down. by rewrite length_rev, length_seq. }
    rewrite Hlen. f_equal. f_equal.
    rewrite minus_INR by lia. rewrite INR_IZR_INZ, Z2Nat.id by lia.
    simpl. assert (0 < IZR num_dt)%R by (by apply IZR_lt).
    field. lra.
  - intros t h Ht%elem_of_range_down. apply Hp. lia.
Qed.

Lemma european_price_witness :
  np_average demo_library = Raverage /\
  (0 < 2)%Z /\ (0 < 1)%Z /\
  (forall t, ir european_option t = 3 / 100 * t)%R /\
  (forall (t : Z) h,
     (1 <= t < 2)%Z -> payoff european_option (IZR t) h <= 0)%R /\
  get_ls_price demo_library european_option 2 1 demo_features [1%R; 1%R] =
    (Ok (Rmax (payoff european_option 0%R [spot_price european_option])
           (exp (- (3 / 100 * expiry european_option)) *
            Raverage
              (terminal_cashflow european_option (Z.to_nat 1)
                 (path_ensemble demo_library european_option 2 1
                    [1%R; 1%R]).1))%R),
     (path_ensemble demo_library european_option 2 1 [1%R; 1%R]).2).
Proof.
  assert (Hf : forall t, (ir european_option t = 3 / 100 * t)%R) by done.
  assert (Hp : forall (t : Z) h,
            (1 <= t < 2)%Z -> (payoff european_option (IZR t) h <= 0)%R).
  { intros t h Ht. replace t with 1%Z by lia. simpl.
    destruct (Rlt_dec 1 3); lra. }
  split; [done|]. split; [lia|]. split; [lia|]. split; [exact Hf|].
  split; [exact Hp|].
  exact (european_price demo_library european_option demo_features 2 1
           [1%R; 1%R] (3 / 100)%R eq_refl ltac:(lia) ltac:(lia) Hf Hp).
Defined.
